(** * The path engine of the [fs] ponyfill (packages/fs/src/index.ts)

    A shallow embedding of [normalizeArray], [pathRegExp]/[parse], [resolve],
    [isAbsolute], [normalize], [join], [trim], [relative], [dirname],
    [basename] and [extname], followed by the properties of the specification
    that concern them.

    After it come [encodePathChars] and [pathToFileURL] of the [url]
    ponyfill, and the error translation and directory walk of
    [fs/promises], over an abstract platform.

    JavaScript strings are modelled by [string]; the code only ever
    distinguishes the code units '/' and '.' from all the others.  Arrays of
    strings are lists.  A call that may throw returns a [result]. *)

From Stdlib Require Import String Ascii List ZArith Lia Bool Arith.
Import ListNotations.
Local Open Scope string_scope.
Local Open Scope list_scope.

(** ** JavaScript values and exceptions *)

(** The values a caller can put in a variadic argument list; the path engine
    only asks whether [typeof v === 'string']. *)
Inductive jsval : Type :=
| JStr (s : string)
| JNum (n : Z)
| JBool (b : bool)
| JUndefined
| JNull
| JObject.

Inductive result (A : Type) : Type :=
| Ok (a : A)
| TypeError (msg : string).
Arguments Ok {A} a.
Arguments TypeError {A} msg.

Definition bind {A B : Type} (r : result A) (f : A -> result B) : result B :=
  match r with
  | Ok a => f a
  | TypeError msg => TypeError msg
  end.

Notation "x <- r ;; k" := (bind r (fun x => k))
  (at level 61, r at next level, right associativity).

Definition is_string (v : jsval) : bool :=
  match v with JStr _ => true | _ => false end.

Module JS.

(** *** String primitives *)

(** [!!p] for a string [p]. *)
Definition truthy (p : string) : bool := negb (p =? "").

(** [s.charAt(0) === c]. *)
Definition charAt0_is (c : ascii) (s : string) : bool :=
  match s with
  | String c0 _ => Ascii.eqb c0 c
  | EmptyString => false
  end.

Fixpoint drop (n : nat) (s : string) : string :=
  match n, s with
  | S n', String _ s' => drop n' s'
  | _, _ => s
  end.

Fixpoint take (n : nat) (s : string) : string :=
  match n, s with
  | S n', String c s' => String c (take n' s')
  | _, _ => EmptyString
  end.

(** Relative index to absolute index, as [String.prototype.slice] and
    [Array.prototype.slice] do it. *)
Definition clamp (len i : Z) : Z :=
  if (i <? 0)%Z then Z.max (len + i) 0 else Z.min i len.

(** [s.slice(b, e)], with [e] omitted when [None]. *)
Definition slice (s : string) (b : Z) (e : option Z) : string :=
  let len := Z.of_nat (String.length s) in
  let from := clamp len b in
  let to := match e with Some e' => clamp len e' | None => len end in
  take (Z.to_nat (to - from)) (drop (Z.to_nat from) s).

(** [s.split(sep)] for a one-character separator. *)
Fixpoint split (sep : ascii) (s : string) : list string :=
  match s with
  | EmptyString => [EmptyString]
  | String c s' =>
      if Ascii.eqb c sep then EmptyString :: split sep s'
      else match split sep s' with
           | h :: t => String c h :: t
           | [] => [String c EmptyString]
           end
  end.

(** [arr.join(sep)]. *)
Definition join (sep : string) (arr : list string) : string :=
  String.concat sep arr.

(** *** Array primitives *)

(** [arr.splice(i, 1)]: removes the element at index [i], if any. *)
Definition splice1 {A : Type} (arr : list A) (i : nat) : list A :=
  firstn i arr ++ skipn (S i) arr.

(** [arr.slice(b, e)]. *)
Definition aslice {A : Type} (arr : list A) (b e : Z) : list A :=
  let len := Z.of_nat (List.length arr) in
  let from := clamp len b in
  let to := clamp len e in
  firstn (Z.to_nat (to - from)) (skipn (Z.to_nat from) arr).

End JS.

(** ** Backtracking regular-expression matching

    A matcher maps the remaining input to the list of its possible matches,
    in the order in which a backtracking engine tries them; a match is the
    text consumed and the input left.  The first complete match of the list
    is the one [RegExp.prototype.exec] reports. *)
Module Re.

Definition matcher : Type := string -> list (string * string).

Definition eps : matcher := fun s => [(EmptyString, s)].

(** One code unit of a character class. *)
Definition chr (cls : ascii -> bool) : matcher := fun s =>
  match s with
  | String c s' => if cls c then [(String c EmptyString, s')] else []
  | EmptyString => []
  end.

(** [ab] *)
Definition seq (a b : matcher) : matcher := fun s =>
  flat_map (fun m1 => map (fun m2 => ((fst m1 ++ fst m2)%string, snd m2)) (b (snd m1))) (a s).

(** [a|b]: the alternatives of [a] are tried before those of [b]. *)
Definition alt (a b : matcher) : matcher := fun s => a s ++ b s.

(** [a?] (greedy). *)
Definition opt (a : matcher) : matcher := alt a eps.

(** [[cls]*] (greedy): the longest run first. *)
Fixpoint star (cls : ascii -> bool) (s : string) : list (string * string) :=
  match s with
  | String c s' =>
      if cls c
      then map (fun m => (String c (fst m), snd m)) (star cls s') ++ [(EmptyString, s)]
      else [(EmptyString, s)]
  | EmptyString => [(EmptyString, s)]
  end.

(** [[cls]*?] (lazy): the shortest run first. *)
Fixpoint star_lazy (cls : ascii -> bool) (s : string) : list (string * string) :=
  (EmptyString, s) ::
  match s with
  | String c s' =>
      if cls c
      then map (fun m => (String c (fst m), snd m)) (star_lazy cls s')
      else []
  | EmptyString => []
  end.

(** [[cls]+?] (lazy). *)
Definition plus_lazy (cls : ascii -> bool) : matcher := seq (chr cls) (star_lazy cls).

(** [$] without the multiline flag. *)
Definition eos : matcher := fun s =>
  match s with
  | EmptyString => [(EmptyString, EmptyString)]
  | String _ _ => []
  end.

(** Character classes of [pathRegExp]. *)
Definition is_slash (c : ascii) : bool := Ascii.eqb c "/".
Definition is_dot (c : ascii) : bool := Ascii.eqb c ".".
Definition any (c : ascii) : bool := true.                          (* [\s\S] *)
Definition not_slash (c : ascii) : bool := negb (is_slash c).       (* [^\/] *)
Definition not_dot_slash (c : ascii) : bool :=
  negb (is_dot c) && negb (is_slash c).                             (* [^.\/] *)

End Re.

Module Path.

Import JS.

Definition dquote : string := String (ascii_of_nat 34) EmptyString.

(** [throw new TypeError('The "path" argument must be of type string.')] *)
Definition throw_path {A : Type} : result A :=
  TypeError ("The " ++ dquote ++ "path" ++ dquote ++ " argument must be of type string.")%string.

(** *** normalizeArray *)

(** The backward loop of [normalizeArray]: [n] is [i + 1], so the body runs
    at index [i = n - 1] and the loop ends when [n = 0].  [parts[i]] is
    always defined there ([i < parts.length]); where it is not, the body does
    what JavaScript does with [undefined]. *)
Fixpoint normalizeArray_loop (n : nat) (parts : list string) (up : nat)
  : list string * nat :=
  match n with
  | 0 => (parts, up)
  | S i =>
      let last := nth_error parts i in
      if match last with Some l => l =? "." | None => false end then
        normalizeArray_loop i (splice1 parts i) up
      else if match last with Some l => l =? ".." | None => false end then
        normalizeArray_loop i (splice1 parts i) (S up)
      else match up with
           | S up' => normalizeArray_loop i (splice1 parts i) up'
           | 0 => normalizeArray_loop i parts up
           end
  end.

Definition normalizeArray (parts : list string) (allowAboveRoot : bool) : list string :=
  let '(parts, up) := normalizeArray_loop (List.length parts) parts 0 in
  if allowAboveRoot then repeat ".." up ++ parts else parts.

(** *** pathRegExp and parse *)

(** [pathRegExp], piece by piece.  The pattern is anchored by [^] and [$]
    and consists of five consecutive pieces. *)

(** Group 1: [(\/?|)] *)
Definition g1 : Re.matcher := Re.alt (Re.opt (Re.chr Re.is_slash)) Re.eps.

(** Group 2: [([\s\S]*?)] *)
Definition g2 : Re.matcher := Re.star_lazy Re.any.

(** Group 3 starts with the non-capturing [(?:\.{1,2}|[^\/]+?|)] ... *)
Definition g3_name : Re.matcher :=
  Re.alt (Re.seq (Re.chr Re.is_dot) (Re.opt (Re.chr Re.is_dot)))
         (Re.alt (Re.plus_lazy Re.not_slash) Re.eps).

(** ... and ends with group 4: [(\.[^.\/]*|)] *)
Definition g4 : Re.matcher :=
  Re.alt (Re.seq (Re.chr Re.is_dot) (Re.star Re.not_dot_slash)) Re.eps.

(** The non-capturing run of slashes before [$]: [[\/]*] *)
Definition slashes : Re.matcher := Re.star Re.is_slash.

(** The part of the pattern after group 2, on the input [s]: the captures
    of groups 3 and 4 of every way to match [s] to its end, in backtracking
    order. *)
Definition pathRegExp_tail (s : string) : list (string * string) :=
  flat_map (fun nm =>
  flat_map (fun m4 =>
  flat_map (fun ms =>
  map (fun _ => ((fst nm ++ fst m4)%string, fst m4)) (Re.eos (snd ms)))
  (slashes (snd m4))) (g4 (snd nm))) (g3_name s).

(** Every complete match of the pattern on [s], as the list of its four
    captures, in backtracking order. *)
Definition pathRegExp_matches (s : string) : list (list string) :=
  flat_map (fun m1 =>
  flat_map (fun m2 =>
  map (fun m34 => [fst m1; fst m2; fst m34; snd m34]) (pathRegExp_tail (snd m2)))
  (g2 (snd m1))) (g1 s).

(** [pathRegExp.exec(s)]: [null] or the match array, whose entry 0 is the
    whole match (the pattern is anchored at both ends). *)
Definition pathRegExp_exec (s : string) : option (list string) :=
  match pathRegExp_matches s with
  | groups :: _ => Some (s :: groups)
  | [] => None
  end.

(** [pathRegExp.exec(filename)!.slice(1)]; calling [slice] on [null] throws. *)
Definition parse (filename : string) : result (list string) :=
  match pathRegExp_exec filename with
  | Some m => Ok (aslice m 1 (Z.of_nat (List.length m)))
  | None => TypeError "Cannot read properties of null (reading 'slice')"
  end.

(** *** resolve *)

(** The loop of [resolve]: [n] is [i + 2], so the body runs at [i = n - 2]
    (the synthetic root at [i = -1]) and the loop ends at [i = -2] or as soon
    as [resolvedAbsolute] holds. *)
Fixpoint resolve_loop (n : nat) (args : list jsval)
    (resolvedPath : string) (resolvedAbsolute : bool) : result (string * bool) :=
  match n with
  | 0 => Ok (resolvedPath, resolvedAbsolute)
  | S n' =>
      if resolvedAbsolute then Ok (resolvedPath, resolvedAbsolute)
      else
        let path := match n' with
                    | 0 => JStr "/"
                    | S i => nth i args JUndefined
                    end in
        match path with
        | JStr path =>
            if negb (truthy path) then
              resolve_loop n' args resolvedPath resolvedAbsolute
            else
              resolve_loop n' args (path ++ "/" ++ resolvedPath)%string (charAt0_is "/" path)
        | _ => throw_path
        end
  end.

(** [s || '.'] *)
Definition or_dot (s : string) : string := if truthy s then s else ".".

Definition resolve (args : list jsval) : result string :=
  st <- resolve_loop (List.length args + 1) args "" false ;;
  let '(resolvedPath, resolvedAbsolute) := st in
  let resolvedPath :=
    join "/" (normalizeArray (filter truthy (split "/" resolvedPath))
                             (negb resolvedAbsolute)) in
  Ok (or_dot ((if resolvedAbsolute then "/" else "") ++ resolvedPath)%string).

(** *** isAbsolute, normalize, join *)

Definition isAbsolute (path : string) : bool := charAt0_is "/" path.

Definition normalize (path : string) : string :=
  let isPathAbsolute := isAbsolute path in
  let trailingSlash := slice path (-1) None =? "/" in
  let path := join "/" (normalizeArray (filter truthy (split "/" path))
                                       (negb isPathAbsolute)) in
  let path := if negb (truthy path) && negb isPathAbsolute then "." else path in
  let path := if truthy path && trailingSlash then (path ++ "/")%string else path in
  ((if isPathAbsolute then "/" else "") ++ path)%string.

(** [args.filter(p => { if (typeof p !== 'string') throw ...; return p })] *)
Fixpoint join_filter (args : list jsval) : result (list string) :=
  match args with
  | [] => Ok []
  | JStr p :: rest =>
      kept <- join_filter rest ;;
      Ok (if truthy p then p :: kept else kept)
  | _ :: _ => throw_path
  end.

Definition join (args : list jsval) : result string :=
  kept <- join_filter args ;;
  Ok (normalize (JS.join "/" kept)).

(** *** trim and relative *)

(** First loop of [trim]: the index of the first non-empty entry, or the
    length of the array. *)
Fixpoint trim_start (arr : list string) : nat :=
  match arr with
  | x :: rest => if x =? "" then S (trim_start rest) else 0
  | [] => 0
  end.

(** Second loop of [trim]: the index of the last non-empty entry, or -1. *)
Definition trim_end (arr : list string) : Z :=
  Z.of_nat (List.length arr) - 1 - Z.of_nat (trim_start (rev arr)).

Definition trim (arr : list string) : list string :=
  let start := Z.of_nat (trim_start arr) in
  let end_ := trim_end arr in
  if (start >? end_)%Z then []
  else aslice arr start (end_ - start + 1).

(** The loop [for (; shared < length; shared++) if (lhs[shared] !== rhs[shared]) break];
    [n] is [length - shared]. *)
Fixpoint shared_loop (n : nat) (lhs rhs : list string) (shared : nat) : nat :=
  match n with
  | 0 => shared
  | S n' =>
      match nth_error lhs shared, nth_error rhs shared with
      | Some l, Some r => if l =? r then shared_loop n' lhs rhs (S shared) else shared
      | None, None => shared_loop n' lhs rhs (S shared)
      | _, _ => shared
      end
  end.

Definition relative (from to : string) : result string :=
  rfrom <- resolve [JStr from] ;;
  rto <- resolve [JStr to] ;;
  let lhs := trim (split "/" (slice rfrom 1 None)) in
  let rhs := trim (split "/" (slice rto 1 None)) in
  let length := Nat.min (List.length lhs) (List.length rhs) in
  let shared := shared_loop length lhs rhs 0 in
  let result := repeat ".." (List.length lhs - shared) in
  Ok (JS.join "/" (result ++ aslice rhs (Z.of_nat shared) (Z.of_nat (List.length rhs)))).

Definition sep : string := "/".
Definition delimiter : string := ":".

(** *** dirname, basename, extname *)

Definition dirname (path : string) : result string :=
  result <- parse path ;;
  let root := nth 0 result "" in
  let dir := nth 1 result "" in
  if negb (truthy root) && negb (truthy dir) then Ok "."
  else
    let dir := if truthy dir then slice dir 0 (Some (-1)%Z) else dir in
    Ok (root ++ dir)%string.

(** [ext] is [None] when the optional argument is omitted. *)
Definition basename (path : string) (ext : option string) : result string :=
  result <- parse path ;;
  let f := nth 2 result "" in
  match ext with
  | Some ext =>
      let n := Z.of_nat (String.length ext) in
      if truthy ext && (slice f (- n) None =? ext)
      then Ok (slice f 0 (Some (- n)%Z))
      else Ok f
  | None => Ok f
  end.

Definition extname (path : string) : result string :=
  result <- parse path ;;
  Ok (nth 3 result "").

End Path.

(** ** The [url] ponyfill (packages/url/src/index.ts) *)
Module Url.

Import JS.

(** [s.replace(/c/g, by)] for a pattern that is one literal character and a
    replacement without '$'. *)
Fixpoint replace_all (c : ascii) (by_ : string) (s : string) : string :=
  match s with
  | EmptyString => EmptyString
  | String x s' =>
      if Ascii.eqb x c then (by_ ++ replace_all c by_ s')%string
      else String x (replace_all c by_ s')
  end.

Definition percent : ascii := "%".
Definition backslash : ascii := ascii_of_nat 92.
Definition newline : ascii := ascii_of_nat 10.
Definition carriage_return : ascii := ascii_of_nat 13.
Definition tab : ascii := ascii_of_nat 9.

Definition encodePathChars (filepath : string) : string :=
  replace_all tab "%09"
    (replace_all carriage_return "%0D"
      (replace_all newline "%0A"
        (replace_all backslash "%5C"
          (replace_all percent "%25" filepath)))).

(** [s[s.length - 1]]: the last character as a string, [undefined] for the
    empty string. *)
Fixpoint last_index (s : string) : option string :=
  match s with
  | EmptyString => None
  | String c EmptyString => Some (String c EmptyString)
  | String _ s' => last_index s'
  end.

(** [v === s] for [v] a string or [undefined]. *)
Definition strict_eq (v : option string) (s : string) : bool :=
  match v with
  | Some x => x =? s
  | None => false
  end.

(** [pathToFileURL], up to the string it assigns to [outURL.pathname]; the
    [URL] object and its setter belong to the platform. *)
Definition pathToFileURL_pathname (filepath : string) : result string :=
  resolved <- Path.resolve [JStr filepath] ;;
  let resolved :=
    if strict_eq (last_index filepath) "/" && negb (strict_eq (last_index resolved) Path.sep)
    then (resolved ++ "/")%string
    else resolved in
  Ok (encodePathChars resolved).

End Url.

(** ** The [fs/promises] ponyfill: errors and the walk to a directory

    The origin-private file system belongs to the platform: its state is a
    [store], its directories are [handle]s, and each of its calls returns
    what it resolves to or the exception it rejects with, and the new
    state.  The awaits of one call run in sequence. *)
Module Promises.

Import JS.

Record SystemErrorOptions : Type := {
  opt_errno : Z;
  opt_code : string;
  opt_syscall : string;
  opt_path : string
}.

(** The message [SystemError] passes to [Error], from the template
    [`${options.code}: ${message}, ${options.syscall} '${options.path}'`]. *)
Definition SystemError_message (message : string) (options : SystemErrorOptions) : string :=
  (opt_code options ++ ": " ++ message ++ ", " ++ opt_syscall options ++
   " '" ++ opt_path options ++ "'")%string.

(** The subclasses of [SystemError]. *)
Inductive error_class : Type := ENOENT | EEXIST | ENOTDIR | EISDIR.

(** What the constructor of each subclass passes to [SystemError]. *)
Definition class_message (c : error_class) : string :=
  match c with
  | ENOENT => "no such file or directory"
  | EEXIST => "file already exists"
  | ENOTDIR => "not a directory"
  | EISDIR => "illegal operation on a directory"
  end.

Definition class_options (c : error_class) (syscall path : string) : SystemErrorOptions :=
  match c with
  | ENOENT => {| opt_errno := -2; opt_code := "EEXIST"; opt_syscall := syscall; opt_path := path |}
  | EEXIST => {| opt_errno := -17; opt_code := "EEXIST"; opt_syscall := syscall; opt_path := path |}
  | ENOTDIR => {| opt_errno := -20; opt_code := "ENOTDIR"; opt_syscall := syscall; opt_path := path |}
  | EISDIR => {| opt_errno := -21; opt_code := "EISDIR"; opt_syscall := syscall; opt_path := path |}
  end.

(** What is thrown: a [DOMException] of the platform with its [code], an
    instance of a subclass of [SystemError] with its message, or anything
    else. *)
Inductive exn : Type :=
| DOMException (code : nat)
| SystemError (cls : error_class) (message : string)
| OtherError (id : nat).

(** [new C(syscall, path)] *)
Definition new_error (c : error_class) (syscall path : string) : exn :=
  SystemError c (SystemError_message (class_message c) (class_options c syscall path)).

(** [dict[code]] for a dict written as an object literal with computed
    keys: of two entries with the same key the later one counts. *)
Fixpoint dict_get (dict : list (nat * error_class)) (code : nat) : option error_class :=
  match dict with
  | [] => None
  | (k, c) :: rest =>
      match dict_get rest code with
      | Some c' => Some c'
      | None => if Nat.eqb k code then Some c else None
      end
  end.

(** [syscall(type, path, cb, dict)], on what [cb()] settled to. *)
Definition syscall {T : Type} (type path : string) (cb : exn + T)
    (dict : list (nat * error_class)) : exn + T :=
  match cb with
  | inr v => inr v
  | inl (DOMException code) =>
      match dict_get dict code with
      | Some constructor => inl (new_error constructor type path)
      | None => inl (DOMException code)
      end
  | inl e => inl e
  end.

(** [parts.pop()]: the last entry ([undefined] for an empty array) and the
    array without it. *)
Definition pop {A : Type} (parts : list A) : option A * list A :=
  match rev parts with
  | [] => (None, [])
  | x :: r => (Some x, rev r)
  end.

(** [e instanceof ENOENT] *)
Definition instanceof_ENOENT (e : exn) : bool :=
  match e with
  | SystemError ENOENT _ => true
  | _ => false
  end.

(** The bytes [FileHandle.write] hands to the stream when [data] is a
    [Uint8Array]: [data.slice(offset, offset + length)], where [offset] is
    [args[0] ?? 0] and [length] is [args[1] ?? data.byteLength - offset]
    ([None] stands for [undefined] or [null]; the numbers are integers).
    [bytesWritten] is the length of the result. *)
Definition write_chunk {A : Type} (data : list A) (offset length : option Z) : list A :=
  let offset := match offset with Some o => o | None => 0%Z end in
  let length := match length with
                | Some l => l
                | None => (Z.of_nat (List.length data) - offset)%Z
                end in
  aslice data offset (offset + length).

Section Platform.

Variables store handle : Type.

(** [DOMException.TYPE_MISMATCH_ERR] and [DOMException.NOT_FOUND_ERR]. *)
Variables TYPE_MISMATCH_ERR NOT_FOUND_ERR : nat.

(** [navigator.storage.getDirectory()] *)
Variable storage_getDirectory : store -> (exn + handle) * store.

(** [root.getDirectoryHandle(name, { create })]; [name] is [None] when
    the code passes [undefined]. *)
Variable handle_getDirectoryHandle :
  handle -> option string -> bool -> store -> (exn + handle) * store.

(** [root.removeEntry(name, { recursive })] *)
Variable handle_removeEntry :
  handle -> option string -> bool -> store -> (exn + unit) * store.

(** The dict of [getDirectoryHandle]. *)
Definition directory_dict : list (nat * error_class) :=
  [(TYPE_MISMATCH_ERR, ENOTDIR); (NOT_FOUND_ERR, ENOENT)].

(** The loop of [getDirectoryHandle], from the directory [root]. *)
Fixpoint getDirectoryHandle_loop (type path : string) (parts : list string)
    (create : bool) (root : handle) (st : store) : (exn + handle) * store :=
  match parts with
  | [] => (inr root, st)
  | part :: rest =>
      let '(r, st') := handle_getDirectoryHandle root (Some part) create st in
      match syscall type path r directory_dict with
      | inl e => (inl e, st')
      | inr root' => getDirectoryHandle_loop type path rest create root' st'
      end
  end.

Definition getDirectoryHandle (type path : string) (parts : list string)
    (create : bool) (st : store) : (exn + handle) * store :=
  let '(r, st') := storage_getDirectory st in
  match r with
  | inl e => (inl e, st')
  | inr root => getDirectoryHandle_loop type path parts create root st'
  end.

Definition getParent (type path : string) (create : bool) (st : store)
  : (exn + handle * option string) * store :=
  let parts := filter truthy (split "/" path) in
  let '(filename, parts) := pop parts in
  let '(r, st') := getDirectoryHandle type path parts create st in
  match r with
  | inl e => (inl e, st')
  | inr root => (inr (root, filename), st')
  end.

(** [rm(path, options)], also exported as [unlink] and [rmdir]; [force]
    and [recursive] are the options, taken as booleans. *)
Definition rm (path : string) (force recursive : bool) (st : store) : (exn + unit) * store :=
  let '(r, st1) :=
    let '(r0, st0) := getParent "rm" path false st in
    match r0 with
    | inl e => (inl e, st0)
    | inr (root, filename) => handle_removeEntry root filename recursive st0
    end in
  match r with
  | inr v => (inr v, st1)
  | inl e => if force && instanceof_ENOENT e then (inr tt, st1) else (inl e, st1)
  end.

End Platform.

End Promises.

Import JS Path.

(** ** Vocabulary of the specification *)

(** The string has no '/'. *)
Fixpoint no_slash (s : string) : bool :=
  match s with
  | EmptyString => true
  | String c s' => negb (Ascii.eqb c "/") && no_slash s'
  end.

(** The string consists of '/' only. *)
Fixpoint all_slash (s : string) : bool :=
  match s with
  | EmptyString => true
  | String c s' => Ascii.eqb c "/" && all_slash s'
  end.

(** The last character of the string is [c]. *)
Fixpoint ends_with (c : ascii) (s : string) : bool :=
  match s with
  | EmptyString => false
  | String c0 EmptyString => Ascii.eqb c0 c
  | String _ s' => ends_with c s'
  end.

(** A segment: a non-empty substring between separators. *)
Definition segment (s : string) : Prop := s <> "" /\ no_slash s = true.

(** A segment other than the special segments '.' and '..'. *)
Definition plain (s : string) : Prop := segment s /\ s <> "." /\ s <> "..".

(** The non-empty segments of a path string: [path.split('/').filter(p => !!p)]. *)
Definition segments (path : string) : list string :=
  filter truthy (split "/" path).

(** The collapse procedure as a right-to-left pass over the segments:
    [rparts] is the part of the array still to be visited, last entry
    first; [kept] the entries already visited and kept. *)
Fixpoint collapse (rparts : list string) (up : nat) (kept : list string)
  : list string * nat :=
  match rparts with
  | [] => (kept, up)
  | last :: r =>
      if last =? "." then collapse r up kept
      else if last =? ".." then collapse r (S up) kept
      else match up with
           | S up' => collapse r up' kept
           | 0 => collapse r 0 (last :: kept)
           end
  end.

(** The collapsed segments of an absolute path. *)
Definition collapsed (parts : list string) : list string :=
  fst (collapse (rev parts) 0 []).

(** The path accumulated by the loop of [resolve] on string arguments:
    [rargs] holds the arguments still to be visited, last one first, and
    [acc] is [resolvedPath]. *)
Fixpoint resolve_scan (rargs : list string) (acc : string) : string :=
  match rargs with
  | [] => ("/" ++ "/" ++ acc)%string
  | p :: r =>
      if negb (truthy p) then resolve_scan r acc
      else if isAbsolute p then (p ++ "/" ++ acc)%string
      else resolve_scan r (p ++ "/" ++ acc)%string
  end.

(** The segments [normalize] keeps for [path]. *)
Definition normalize_parts (path : string) : list string :=
  normalizeArray (segments path) (negb (isAbsolute path)).

(** The last three statements of [normalize], from the absolute marker, the
    trailing-slash test and the normalized segments. *)
Definition assemble (isPathAbsolute trailingSlash : bool) (parts : list string) : string :=
  let path := JS.join "/" parts in
  let path := if negb (truthy path) && negb isPathAbsolute then "." else path in
  let path := if truthy path && trailingSlash then (path ++ "/")%string else path in
  ((if isPathAbsolute then "/" else "") ++ path)%string.

(** Every character of the string is in the class. *)
Fixpoint all_chars (cls : ascii -> bool) (s : string) : bool :=
  match s with
  | EmptyString => true
  | String c s' => cls c && all_chars cls s'
  end.

(** Every match of a matcher consumes a prefix of the input made of
    characters of the class. *)
Definition consumes (cls : ascii -> bool) (m : Re.matcher) : Prop :=
  forall s x r, In (x, r) (m s) -> s = (x ++ r)%string /\ all_chars cls x = true.

(** The complete matches of [pathRegExp] once group 1 has captured [root]
    and group 2 has already taken [pre], with [s] left. *)
Definition matches_from (root pre s : string) : list (list string) :=
  flat_map (fun m2 =>
    map (fun m34 => [root; (pre ++ fst m2)%string; fst m34; snd m34])
        (pathRegExp_tail (snd m2)))
    (g2 s).

(** The scan of [resolve] over trailing string arguments [rargs] (last one
    first): the accumulated path, and whether an absolute one stopped it. *)
Fixpoint scan_strings (rargs : list string) (acc : string) : string * bool :=
  match rargs with
  | [] => (acc, false)
  | p :: r =>
      if negb (truthy p) then scan_strings r acc
      else if charAt0_is "/" p then ((p ++ "/" ++ acc)%string, true)
      else scan_strings r (p ++ "/" ++ acc)%string
  end.

(** The string has no backslash, newline, carriage return or tab. *)
Fixpoint no_raw (s : string) : bool :=
  match s with
  | EmptyString => true
  | String c s' =>
      negb (Ascii.eqb c Url.backslash) && negb (Ascii.eqb c Url.newline) &&
      negb (Ascii.eqb c Url.carriage_return) && negb (Ascii.eqb c Url.tab) && no_raw s'
  end.

(** What [encodePathChars] makes of one character. *)
Definition escape (c : ascii) : string :=
  if Ascii.eqb c Url.percent then "%25"
  else if Ascii.eqb c Url.backslash then "%5C"
  else if Ascii.eqb c Url.newline then "%0A"
  else if Ascii.eqb c Url.carriage_return then "%0D"
  else if Ascii.eqb c Url.tab then "%09"
  else String c "".

(** The character behind the two hexadecimal digits of an escape of
    [encodePathChars]. *)
Definition unescape_digits (a b : ascii) : option ascii :=
  if Ascii.eqb a "2" && Ascii.eqb b "5" then Some Url.percent
  else if Ascii.eqb a "5" && Ascii.eqb b "C" then Some Url.backslash
  else if Ascii.eqb a "0" && Ascii.eqb b "A" then Some Url.newline
  else if Ascii.eqb a "0" && Ascii.eqb b "D" then Some Url.carriage_return
  else if Ascii.eqb a "0" && Ascii.eqb b "9" then Some Url.tab
  else None.

(** Reading the escapes of [encodePathChars] back. *)
Fixpoint unescape (s : string) : string :=
  match s with
  | EmptyString => EmptyString
  | String c rest =>
      match rest with
      | String a (String b rest') =>
          match (if Ascii.eqb c Url.percent then unescape_digits a b else None) with
          | Some x => String x (unescape rest')
          | None => String c (unescape rest)
          end
      | _ => String c (unescape rest)
      end
  end.

(** The strings group 4 of [pathRegExp] can capture: nothing, or a '.'
    followed by characters other than '.' and '/'. *)
Definition is_ext (s : string) : bool :=
  match s with
  | EmptyString => true
  | String c t => Re.is_dot c && all_chars Re.not_dot_slash t
  end.

(** The part of the string from its last '.', or nothing without a '.'. *)
Fixpoint from_last_dot (s : string) : string :=
  match s with
  | EmptyString => EmptyString
  | String c r =>
      match from_last_dot r with
      | EmptyString => if Re.is_dot c then s else EmptyString
      | e => e
      end
  end.

(** The rest of [pathRegExp] once the name part of group 3 has matched:
    group 4, the slashes and the end, with the captures of groups 3 and 4. *)
Definition after_name (nm : string * string) : list (string * string) :=
  flat_map (fun m4 =>
  flat_map (fun ms =>
  map (fun _ => ((fst nm ++ fst m4)%string, fst m4)) (Re.eos (snd ms)))
  (slashes (snd m4))) (g4 (snd nm)).

(** The extension of a final segment: nothing for '..', else the part from
    the last '.' that is not the first character. *)
Definition extension (base : string) : string :=
  if base =? ".." then "" else from_last_dot (drop 1 base).

(** A platform for examples: an origin-private file system that stays
    empty, in which every lookup and every removal rejects with a
    [DOMException] of code 8 ([NOT_FOUND_ERR]; [TYPE_MISMATCH_ERR] is 17). *)
Definition empty_getDirectory (st : unit) : (Promises.exn + nat) * unit := (inr 0, st).

Definition empty_getDirectoryHandle (root : nat) (name : option string) (create : bool)
    (st : unit) : (Promises.exn + nat) * unit :=
  (inl (Promises.DOMException 8), st).

Definition empty_removeEntry (root : nat) (name : option string) (recursive : bool)
    (st : unit) : (Promises.exn + unit) * unit :=
  (inl (Promises.DOMException 8), st).

(** ** Strings *)

Lemma append_nil_r (s : string) : (s ++ "")%string = s.
Proof. induction s as [|c s IH]; simpl; [reflexivity | now rewrite IH]. Qed.

Lemma append_assoc (a b c : string) : ((a ++ b) ++ c)%string = (a ++ (b ++ c))%string.
Proof. induction a as [|x a IH]; simpl; [reflexivity | now rewrite IH]. Qed.

Lemma length_append (a b : string) :
  String.length (a ++ b) = String.length a + String.length b.
Proof. induction a as [|x a IH]; simpl; [reflexivity | now rewrite IH]. Qed.

Lemma truthy_true (s : string) : truthy s = true <-> s <> "".
Proof.
  unfold truthy. destruct (String.eqb_spec s ""); simpl; split; intros; congruence.
Qed.

Lemma truthy_false (s : string) : truthy s = false <-> s = "".
Proof.
  unfold truthy. destruct (String.eqb_spec s ""); simpl; split; intros; congruence.
Qed.

Lemma take_all (n : nat) (s : string) : String.length s <= n -> take n s = s.
Proof.
  revert n. induction s as [|c s IH]; intros [|n] H; simpl in *; try reflexivity; try lia.
  f_equal. apply IH. lia.
Qed.

Lemma drop_append (a b : string) : drop (String.length a) (a ++ b) = b.
Proof. induction a as [|x a IH]; simpl; [now destruct b | exact IH]. Qed.

Lemma take_append (a b : string) : take (String.length a) (a ++ b) = a.
Proof. induction a as [|x a IH]; simpl; [now destruct b | now rewrite IH]. Qed.

(** [s.slice(1)] drops the first character. *)
Lemma slice_1 (c : ascii) (s : string) : slice (String c s) 1 None = s.
Proof.
  unfold slice, clamp. simpl String.length.
  replace (1 <? 0)%Z with false by reflexivity.
  rewrite Z.min_l by lia. simpl drop.
  apply take_all. lia.
Qed.

(** [s.slice(-1)] is the last character. *)
Lemma slice_last (s : string) (c : ascii) :
  slice (s ++ String c "") (-1) None = String c "".
Proof.
  unfold slice, clamp. rewrite length_append. simpl String.length.
  replace (-1 <? 0)%Z with true by reflexivity.
  rewrite Z.max_l by lia.
  replace (Z.to_nat (Z.of_nat (String.length s + 1) + -1)) with (String.length s) by lia.
  rewrite drop_append. apply take_all. simpl. lia.
Qed.

(** [s.slice(0, -1)] drops the last character. *)
Lemma slice_init (s : string) (c : ascii) :
  slice (s ++ String c "") 0 (Some (-1)%Z) = s.
Proof.
  unfold slice, clamp. rewrite length_append. simpl String.length.
  replace (-1 <? 0)%Z with true by reflexivity.
  replace (0 <? 0)%Z with false by reflexivity.
  rewrite Z.max_l by lia. rewrite Z.min_l by lia. simpl drop.
  replace (Z.to_nat (Z.of_nat (String.length s + 1) + -1 - 0)) with (String.length s) by lia.
  apply take_append.
Qed.

Lemma snoc_cases (s : string) : s = "" \/ exists s' c, s = (s' ++ String c "")%string.
Proof.
  induction s as [|x s IH]; [now left | right].
  destruct IH as [-> | (s' & c & ->)].
  - now exists "", x.
  - now exists (String x s'), c.
Qed.

Lemma ends_with_snoc (c d : ascii) (s : string) :
  ends_with c (s ++ String d "") = Ascii.eqb d c.
Proof.
  induction s as [|x s IH]; simpl; [reflexivity|].
  rewrite IH. destruct s; reflexivity.
Qed.

(** The test [path.slice(-1) === '/'] of [normalize]. *)
Lemma trailingSlash_ends_with (s : string) :
  (slice s (-1) None =? "/") = ends_with "/" s.
Proof.
  destruct (snoc_cases s) as [-> | (s' & c & ->)]; [reflexivity|].
  rewrite slice_last, ends_with_snoc. simpl.
  destruct (Ascii.eqb c "/"); reflexivity.
Qed.

Lemma ends_with_app (c : ascii) (a b : string) :
  b <> "" -> ends_with c (a ++ b) = ends_with c b.
Proof.
  intros Hb. induction a as [|x a IH]; simpl; [reflexivity|].
  rewrite IH. destruct (a ++ b)%string eqn:E; [|reflexivity].
  destruct a; simpl in E; congruence.
Qed.

Lemma no_slash_ends_with (s : string) : no_slash s = true -> ends_with "/" s = false.
Proof.
  induction s as [|x s IH]; simpl; [reflexivity|].
  intros H. apply andb_true_iff in H as [Hx Hs].
  destruct s; [now apply negb_true_iff in Hx | now apply IH].
Qed.

Lemma no_slash_not_absolute (s : string) : no_slash s = true -> isAbsolute s = false.
Proof.
  destruct s as [|x s]; simpl; [reflexivity|].
  intros H. apply andb_true_iff in H as [Hx _]. now apply negb_true_iff in Hx.
Qed.

Lemma isAbsolute_append (a b : string) : a <> "" -> isAbsolute (a ++ b) = isAbsolute a.
Proof. destruct a; [congruence | reflexivity]. Qed.

(** ** Splitting and joining *)

Lemma split_not_nil (sep : ascii) (s : string) : split sep s <> [].
Proof.
  destruct s as [|c s]; simpl; [discriminate|].
  destruct (Ascii.eqb c sep); [discriminate|].
  destruct (split sep s); discriminate.
Qed.

Lemma split_app (sep : ascii) (a b : string) :
  split sep (a ++ String sep b) = split sep a ++ split sep b.
Proof.
  induction a as [|x a IH]; simpl.
  - now rewrite Ascii.eqb_refl.
  - rewrite IH. destruct (Ascii.eqb x sep); [reflexivity|].
    destruct (split sep a) eqn:E; [now apply split_not_nil in E | reflexivity].
Qed.

Lemma split_no_slash (s : string) : no_slash s = true -> split "/" s = [s].
Proof.
  induction s as [|x s IH]; simpl; [reflexivity|].
  intros H. apply andb_true_iff in H as [Hx Hs].
  apply negb_true_iff in Hx. rewrite Hx, (IH Hs). reflexivity.
Qed.

Lemma split_parts_no_slash (s : string) :
  Forall (fun x => no_slash x = true) (split "/" s).
Proof.
  induction s as [|x s IH]; simpl; [now constructor|].
  destruct (Ascii.eqb x "/") eqn:Hx; [now constructor|].
  destruct (split "/" s) as [|h t]; [now constructor; [simpl; rewrite Hx|]|].
  inversion IH; subst. constructor; [|assumption].
  simpl. now rewrite Hx.
Qed.

Lemma split_join (l : list string) :
  l <> [] -> Forall (fun x => no_slash x = true) l -> split "/" (JS.join "/" l) = l.
Proof.
  induction l as [|x l IH]; [congruence|].
  intros _ H. inversion H as [|? ? Hx Hl]; subst.
  destruct l as [|y l].
  - simpl. now apply split_no_slash.
  - change (JS.join "/" (x :: y :: l)) with (x ++ String "/" (JS.join "/" (y :: l)))%string.
    rewrite split_app, IH by (assumption || discriminate).
    now rewrite split_no_slash.
Qed.

Lemma segments_app (a b : string) :
  segments (a ++ "/" ++ b) = segments a ++ segments b.
Proof.
  unfold segments. change ("/" ++ b)%string with (String "/" b).
  now rewrite split_app, filter_app.
Qed.

Lemma segments_slash_l (s : string) : segments (String "/" s) = segments s.
Proof. exact (segments_app "" s). Qed.

Lemma segments_slash_r (s : string) : segments (s ++ "/") = segments s.
Proof.
  change "/" with ("/" ++ "")%string. rewrite segments_app. apply app_nil_r.
Qed.

Lemma segments_are_segments (s : string) : Forall segment (segments s).
Proof.
  unfold segments. apply Forall_forall. intros x Hx.
  apply filter_In in Hx as [Hin Ht]. split.
  - now apply truthy_true.
  - pose proof (split_parts_no_slash s) as H.
    rewrite Forall_forall in H. now apply H.
Qed.

Lemma filter_truthy_segments (l : list string) : Forall segment l -> filter truthy l = l.
Proof.
  induction 1 as [|x l [Hx _] _ IH]; simpl; [reflexivity|].
  apply truthy_true in Hx. now rewrite Hx, IH.
Qed.

Lemma segments_join (l : list string) : Forall segment l -> segments (JS.join "/" l) = l.
Proof.
  intros H. destruct l as [|x l]; [reflexivity|].
  unfold segments. rewrite split_join.
  - now apply filter_truthy_segments.
  - discriminate.
  - revert H. apply Forall_impl. now intros a [_ Ha].
Qed.

Lemma segments_segment (s : string) : segment s -> segments s = [s].
Proof. intros H. apply (segments_join [s]). now constructor. Qed.

Lemma join_cons_not_empty (x : string) (l : list string) :
  x <> "" -> JS.join "/" (x :: l) <> "".
Proof. destruct l, x; simpl; congruence. Qed.

Lemma join_not_absolute (l : list string) :
  Forall segment l -> isAbsolute (JS.join "/" l) = false.
Proof.
  intros H. destruct H as [|x l [Hx Hs] Hl]; [reflexivity|].
  destruct l.
  - now apply no_slash_not_absolute.
  - change (JS.join "/" (x :: s :: l)) with (x ++ String "/" (JS.join "/" (s :: l)))%string.
    rewrite isAbsolute_append by assumption. now apply no_slash_not_absolute.
Qed.

Lemma join_no_trailing_slash (l : list string) :
  Forall segment l -> ends_with "/" (JS.join "/" l) = false.
Proof.
  induction 1 as [|x l [Hx Hs] Hl IH]; [reflexivity|].
  destruct l as [|y l].
  - now apply no_slash_ends_with.
  - change (JS.join "/" (x :: y :: l)) with (x ++ String "/" (JS.join "/" (y :: l)))%string.
    inversion Hl as [|? ? [Hy _] _]; subst.
    pose proof (join_cons_not_empty y l Hy) as Hne.
    rewrite ends_with_app by discriminate.
    remember (JS.join "/" (y :: l)) as j eqn:E.
    destruct j; [congruence | exact IH].
Qed.

Lemma join_injective (l1 l2 : list string) :
  Forall segment l1 -> Forall segment l2 ->
  JS.join "/" l1 = JS.join "/" l2 -> l1 = l2.
Proof.
  intros H1 H2 E. rewrite <- (segments_join l1 H1), <- (segments_join l2 H2).
  now rewrite E.
Qed.

(** ** The collapse procedure *)

Lemma splice1_middle {A : Type} (pre suf : list A) (x : A) :
  splice1 (pre ++ x :: suf) (List.length pre) = pre ++ suf.
Proof.
  unfold splice1.
  rewrite firstn_app, firstn_all, Nat.sub_diag. simpl firstn. rewrite app_nil_r.
  change (S (List.length pre)) with (1 + List.length pre).
  rewrite <- skipn_skipn, skipn_app, skipn_all, Nat.sub_diag. reflexivity.
Qed.

(** The index loop with [splice] is the right-to-left pass [collapse]. *)
Lemma normalizeArray_loop_collapse (pre suf : list string) (up : nat) :
  normalizeArray_loop (List.length pre) (pre ++ suf) up = collapse (rev pre) up suf.
Proof.
  revert suf up. induction pre as [|x pre IH] using rev_ind; intros suf up.
  - reflexivity.
  - rewrite rev_unit, length_app, Nat.add_comm. simpl Nat.add.
    rewrite <- app_assoc. simpl app.
    cbn [normalizeArray_loop collapse].
    rewrite nth_error_app2, Nat.sub_diag by lia. cbn [nth_error].
    rewrite splice1_middle.
    destruct (x =? "."); [apply IH|].
    destruct (x =? ".."); [apply IH|].
    destruct up; apply IH.
Qed.

Lemma normalizeArray_collapse (parts : list string) (allowAboveRoot : bool) :
  normalizeArray parts allowAboveRoot =
  (if allowAboveRoot then repeat ".." (snd (collapse (rev parts) 0 [])) else [])
  ++ fst (collapse (rev parts) 0 []).
Proof.
  unfold normalizeArray.
  pose proof (normalizeArray_loop_collapse parts [] 0) as H.
  rewrite app_nil_r in H. rewrite H.
  destruct (collapse (rev parts) 0 []) as [kept up].
  now destruct allowAboveRoot.
Qed.

Lemma normalizeArray_absolute (parts : list string) :
  normalizeArray parts false = collapsed parts.
Proof. now rewrite normalizeArray_collapse. Qed.

Lemma collapse_app (r1 r2 : list string) (up : nat) (kept : list string) :
  collapse (r1 ++ r2) up kept =
  collapse r2 (snd (collapse r1 up kept)) (fst (collapse r1 up kept)).
Proof.
  revert up kept. induction r1 as [|x r1 IH]; intros up kept; simpl; [reflexivity|].
  destruct (x =? "."); [apply IH|].
  destruct (x =? ".."); [apply IH|].
  destruct up; apply IH.
Qed.

Lemma plain_not_dot (x : string) : plain x -> (x =? ".") = false /\ (x =? "..") = false.
Proof. intros (_ & H1 & H2). split; now apply String.eqb_neq. Qed.

Lemma segment_plain (x : string) :
  segment x -> (x =? ".") = false -> (x =? "..") = false -> plain x.
Proof. intros Hs H1 H2. repeat split; try apply Hs; now apply String.eqb_neq. Qed.

Lemma collapse_plain (r : list string) (kept : list string) :
  Forall plain r -> collapse r 0 kept = (rev r ++ kept, 0).
Proof.
  intros H. revert kept. induction H as [|x r Hx _ IH]; intros kept; simpl; [reflexivity|].
  destruct (plain_not_dot x Hx) as [-> ->].
  rewrite IH, <- app_assoc. reflexivity.
Qed.

Lemma collapse_dotdots (k up : nat) (kept : list string) :
  collapse (repeat ".." k) up kept = (kept, up + k).
Proof.
  revert up. induction k as [|k IH]; intros up; simpl.
  - now rewrite Nat.add_0_r.
  - rewrite IH. f_equal. lia.
Qed.

Lemma collapse_keeps_plain (r : list string) (up : nat) (kept : list string) :
  Forall segment r -> Forall plain kept -> Forall plain (fst (collapse r up kept)).
Proof.
  intros H. revert up kept. induction H as [|x r Hx _ IH]; intros up kept Hk; simpl.
  - assumption.
  - destruct (x =? ".") eqn:E1; [now apply IH|].
    destruct (x =? "..") eqn:E2; [now apply IH|].
    destruct up; apply IH; try assumption.
    constructor; [now apply segment_plain | assumption].
Qed.

Lemma collapsed_plain (parts : list string) :
  Forall segment parts -> Forall plain (collapsed parts).
Proof.
  intros H. apply collapse_keeps_plain; [|constructor].
  now apply Forall_rev.
Qed.

Lemma collapsed_of_plain (parts : list string) :
  Forall plain parts -> collapsed parts = parts.
Proof.
  intros H. unfold collapsed.
  rewrite collapse_plain by now apply Forall_rev.
  simpl. now rewrite rev_involutive, app_nil_r.
Qed.

(** Starting the pass with [up] pending '..' and [kept] behind it removes
    the last [up] segments of what the pass alone keeps. *)
Lemma collapse_pending (r : list string) (up : nat) (kept : list string) :
  collapse r up kept =
  (firstn (List.length (fst (collapse r 0 [])) - up) (fst (collapse r 0 [])) ++ kept,
   snd (collapse r 0 []) + (up - List.length (fst (collapse r 0 [])))).
Proof.
  revert up kept. induction r as [|x r IH]; intros up kept.
  - simpl. f_equal. lia.
  - simpl. destruct (x =? "."); [apply IH|].
    rewrite (IH 1 []), (IH 0 [x]).
    set (N := fst (collapse r 0 [])). set (u := snd (collapse r 0 [])).
    destruct (x =? "..").
    + rewrite IH. fold N u. cbn [fst snd]. rewrite app_nil_r.
      rewrite length_firstn, firstn_firstn. f_equal.
      * f_equal. f_equal. lia.
      * lia.
    + cbn [fst snd]. rewrite Nat.sub_0_r, firstn_all, length_app. simpl List.length.
      destruct up.
      * rewrite IH. fold N u. rewrite Nat.sub_0_r, firstn_all.
        rewrite firstn_all2 by (rewrite length_app; simpl; lia).
        rewrite <- app_assoc. simpl. f_equal. lia.
      * rewrite IH. fold N u.
        replace (List.length N + 1 - S up) with (List.length N - up) by lia.
        rewrite firstn_app.
        replace (List.length N - up - List.length N) with 0 by lia.
        simpl firstn. rewrite app_nil_r. f_equal. lia.
Qed.

(** ** resolve on string arguments *)

Lemma nth_middle_map (pre : list string) (x : string) (suf : list jsval) :
  nth (List.length pre) (map JStr (pre ++ [x]) ++ suf) JUndefined = JStr x.
Proof.
  rewrite map_app, <- app_assoc. simpl.
  rewrite app_nth2; rewrite length_map; [|lia].
  now rewrite Nat.sub_diag.
Qed.

Lemma resolve_loop_ignores (n : nat) (pre : list jsval) (suf : list jsval)
    (acc : string) (b : bool) :
  n <= S (List.length pre) ->
  resolve_loop n (pre ++ suf) acc b = resolve_loop n pre acc b.
Proof.
  revert acc b. induction n as [|n IH]; intros acc b Hn; [reflexivity|].
  simpl. destruct b; [reflexivity|].
  destruct n as [|i].
  - reflexivity.
  - rewrite app_nth1 by lia.
    destruct (nth i pre JUndefined); try reflexivity.
    destruct (negb (truthy s)); apply IH; lia.
Qed.

Lemma resolve_loop_step (i : nat) (args : list jsval) (acc : string) :
  resolve_loop (S (S i)) args acc false =
  match nth i args JUndefined with
  | JStr path =>
      if negb (truthy path) then resolve_loop (S i) args acc false
      else resolve_loop (S i) args (path ++ "/" ++ acc)%string (charAt0_is "/" path)
  | _ => throw_path
  end.
Proof. reflexivity. Qed.

(** On strings the loop always ends with [resolvedAbsolute] set. *)
Lemma resolve_loop_strings (pre : list string) (acc : string) :
  resolve_loop (S (List.length pre)) (map JStr pre) acc false =
  Ok (resolve_scan (rev pre) acc, true).
Proof.
  revert acc. induction pre as [|x pre IH] using rev_ind; intros acc.
  - reflexivity.
  - rewrite rev_unit, length_app, Nat.add_comm. simpl Nat.add.
    rewrite resolve_loop_step. cbn [resolve_scan].
    pose proof (nth_middle_map pre x []) as E. rewrite app_nil_r in E. rewrite E.
    rewrite map_app. unfold isAbsolute.
    destruct (negb (truthy x)).
    + rewrite resolve_loop_ignores by (rewrite length_map; lia). apply IH.
    + destruct (charAt0_is "/" x).
      * reflexivity.
      * rewrite resolve_loop_ignores by (rewrite length_map; lia). apply IH.
Qed.

Lemma or_dot_absolute (s : string) : or_dot ("/" ++ s) = ("/" ++ s)%string.
Proof. reflexivity. Qed.

Lemma resolve_strings (args : list string) :
  resolve (map JStr args) =
  Ok ("/" ++ JS.join "/" (collapsed (segments (resolve_scan (rev args) ""))))%string.
Proof.
  unfold resolve. rewrite length_map, Nat.add_comm. simpl Nat.add.
  rewrite resolve_loop_strings. cbn [bind negb].
  now rewrite normalizeArray_absolute.
Qed.

Lemma segments_resolve_scan1 (p acc : string) :
  segments (resolve_scan [p] acc) = segments p ++ segments acc.
Proof.
  simpl. destruct (truthy p) eqn:Ht; simpl.
  - destruct (isAbsolute p).
    + apply segments_app.
    + change (segments (String "/" (String "/" (p ++ "/" ++ acc)))
              = segments p ++ segments acc).
      rewrite !segments_slash_l. apply segments_app.
  - apply truthy_false in Ht. subst p.
    change (segments (String "/" (String "/" acc)) = segments "" ++ segments acc).
    now rewrite !segments_slash_l.
Qed.

Lemma resolve1 (p : string) :
  resolve [JStr p] = Ok ("/" ++ JS.join "/" (collapsed (segments p)))%string.
Proof.
  change [JStr p] with (map JStr [p]). rewrite resolve_strings. simpl rev.
  rewrite segments_resolve_scan1. change (segments "") with (@nil string).
  now rewrite app_nil_r.
Qed.

Lemma resolve2 (a b : string) :
  b <> "" -> isAbsolute b = false ->
  resolve [JStr a; JStr b] =
  Ok ("/" ++ JS.join "/" (collapsed (segments a ++ segments b)))%string.
Proof.
  intros Hb Hab. change [JStr a; JStr b] with (map JStr [a; b]).
  rewrite resolve_strings.
  change (rev [a; b]) with [b; a].
  change (resolve_scan [b; a] "") with
    (if negb (truthy b) then resolve_scan [a] ""
     else if isAbsolute b then (b ++ "/" ++ "")%string
     else resolve_scan [a] (b ++ "/" ++ "")%string).
  apply truthy_true in Hb. rewrite Hb, Hab. cbn [negb].
  rewrite segments_resolve_scan1, segments_app.
  change (segments "") with (@nil string). now rewrite app_nil_r.
Qed.

Lemma resolve2_empty (a : string) : resolve [JStr a; JStr ""] = resolve [JStr a].
Proof.
  change [JStr a; JStr ""] with (map JStr [a; ""]).
  change [JStr a] with (map JStr [a]).
  now rewrite !resolve_strings.
Qed.

(** ** trim and relative *)

Lemma aslice_skipn {A : Type} (arr : list A) (n : nat) :
  n <= List.length arr ->
  aslice arr (Z.of_nat n) (Z.of_nat (List.length arr)) = skipn n arr.
Proof.
  intros Hn. unfold aslice, clamp.
  destruct (Z.ltb_spec (Z.of_nat n) 0); [lia|].
  destruct (Z.ltb_spec (Z.of_nat (List.length arr)) 0); [lia|].
  rewrite (Z.min_l (Z.of_nat n)) by lia. rewrite Z.min_id, Nat2Z.id.
  apply firstn_all2. rewrite length_skipn. lia.
Qed.

Lemma trim_start_segments (l : list string) : Forall segment l -> trim_start l = 0.
Proof.
  intros [|x l' [Hx _] _]; simpl; [reflexivity|].
  apply String.eqb_neq in Hx. now rewrite Hx.
Qed.

Lemma trim_segments (l : list string) : Forall segment l -> l <> [] -> trim l = l.
Proof.
  intros H Hne. unfold trim, trim_end.
  rewrite (trim_start_segments l H), (trim_start_segments (rev l)) by now apply Forall_rev.
  assert (1 <= List.length l) by (destruct l; simpl; [congruence | lia]).
  destruct (Z.gtb_spec (Z.of_nat 0) (Z.of_nat (List.length l) - 1 - Z.of_nat 0)); [lia|].
  replace (Z.of_nat (List.length l) - 1 - Z.of_nat 0 - Z.of_nat 0 + 1)%Z
    with (Z.of_nat (List.length l)) by lia.
  now rewrite aslice_skipn by lia.
Qed.

(** What [relative] recovers from a resolved path: its segments. *)
Lemma trim_split_resolved (l : list string) :
  Forall segment l -> trim (split "/" (slice ("/" ++ JS.join "/" l) 1 None)) = l.
Proof.
  intros H. change ("/" ++ JS.join "/" l)%string with (String "/" (JS.join "/" l)).
  rewrite slice_1. destruct l as [|x l]; [reflexivity|].
  rewrite split_join.
  - apply trim_segments; [assumption | discriminate].
  - discriminate.
  - revert H. apply Forall_impl. now intros a [_ Ha].
Qed.

Lemma firstn_succ {A : Type} (l : list A) (n : nat) (x : A) :
  nth_error l n = Some x -> firstn (S n) l = firstn n l ++ [x].
Proof.
  revert n. induction l as [|y l IH]; intros [|n] H; simpl in *; try discriminate.
  - congruence.
  - f_equal. now apply IH.
Qed.

Lemma shared_loop_prefix (n : nat) (lhs rhs : list string) (shared : nat) :
  shared + n <= List.length lhs -> shared + n <= List.length rhs ->
  firstn shared lhs = firstn shared rhs ->
  shared <= shared_loop n lhs rhs shared <= shared + n /\
  firstn (shared_loop n lhs rhs shared) lhs = firstn (shared_loop n lhs rhs shared) rhs.
Proof.
  revert shared. induction n as [|n IH]; intros shared Hl Hr Hp; simpl.
  - split; [lia | assumption].
  - destruct (nth_error lhs shared) as [l|] eqn:El;
      [|apply nth_error_None in El; lia].
    destruct (nth_error rhs shared) as [r|] eqn:Er;
      [|apply nth_error_None in Er; lia].
    destruct (String.eqb_spec l r) as [->|Hne].
    + destruct (IH (S shared)) as [Hb Hf]; try lia.
      * now rewrite (firstn_succ _ _ _ El), (firstn_succ _ _ _ Er), Hp.
      * split; [lia | assumption].
    + split; [lia | assumption].
Qed.

Lemma shared_loop_same (n : nat) (l : list string) (shared : nat) :
  shared + n <= List.length l -> shared_loop n l l shared = shared + n.
Proof.
  revert shared. induction n as [|n IH]; intros shared H; simpl; [lia|].
  destruct (nth_error l shared) as [x|] eqn:E; [|apply nth_error_None in E; lia].
  rewrite String.eqb_refl, IH; lia.
Qed.

Lemma relative_segments (from to : string) :
  let lhs := collapsed (segments from) in
  let rhs := collapsed (segments to) in
  let shared := shared_loop (Nat.min (List.length lhs) (List.length rhs)) lhs rhs 0 in
  relative from to =
  Ok (JS.join "/" (repeat ".." (List.length lhs - shared) ++ skipn shared rhs)).
Proof.
  intros lhs rhs shared. unfold relative.
  rewrite !resolve1. cbn [bind]. fold lhs rhs.
  assert (Hl : Forall segment lhs).
  { eapply Forall_impl; [|apply collapsed_plain, segments_are_segments]. now intros a [Ha _]. }
  assert (Hr : Forall segment rhs).
  { eapply Forall_impl; [|apply collapsed_plain, segments_are_segments]. now intros a [Ha _]. }
  rewrite !trim_split_resolved by assumption. fold shared.
  rewrite aslice_skipn; [reflexivity|].
  destruct (shared_loop_prefix (Nat.min (List.length lhs) (List.length rhs)) lhs rhs 0)
    as [Hb _]; try reflexivity; lia.
Qed.

Lemma Forall_skipn_of {A : Type} (P : A -> Prop) (n : nat) (l : list A) :
  Forall P l -> Forall P (skipn n l).
Proof.
  intros H. rewrite <- (firstn_skipn n l) in H. now apply Forall_app in H.
Qed.

Lemma Forall_repeat_of {A : Type} (P : A -> Prop) (n : nat) (x : A) :
  P x -> Forall P (repeat x n).
Proof. intros H. induction n; simpl; now constructor. Qed.

Lemma plain_segment (l : list string) : Forall plain l -> Forall segment l.
Proof. apply Forall_impl. now intros a [Ha _]. Qed.

Lemma dotdot_segment : segment "..".
Proof. split; [discriminate | reflexivity]. Qed.

(** The segments of [from], then [k] times '..', then plain segments:
    the pass keeps the plain tail and drops the last [k] segments kept of
    [from]. *)
Lemma collapsed_climb (parts : list string) (k : nat) (tail : list string) :
  Forall plain tail ->
  collapsed (parts ++ repeat ".." k ++ tail) =
  firstn (List.length (collapsed parts) - k) (collapsed parts) ++ tail.
Proof.
  intros Ht. unfold collapsed.
  rewrite !rev_app_distr, rev_repeat, !collapse_app.
  rewrite (collapse_plain (rev tail)) by now apply Forall_rev.
  cbn [fst snd]. rewrite rev_involutive, app_nil_r.
  rewrite collapse_dotdots. cbn [fst snd].
  now rewrite collapse_pending.
Qed.

Lemma relative_resolves_back (from to : string) :
  exists rel, relative from to = Ok rel /\
              resolve [JStr from; JStr rel] = resolve [JStr to].
Proof.
  pose proof (relative_segments from to) as Hrel. cbv zeta in Hrel.
  set (lhs := collapsed (segments from)) in *.
  set (rhs := collapsed (segments to)) in *.
  set (shared := shared_loop (Nat.min (List.length lhs) (List.length rhs)) lhs rhs 0) in *.
  assert (Hl : Forall plain lhs) by apply collapsed_plain, segments_are_segments.
  assert (Hr : Forall plain rhs) by apply collapsed_plain, segments_are_segments.
  destruct (shared_loop_prefix (Nat.min (List.length lhs) (List.length rhs)) lhs rhs 0)
    as [Hb Hp]; try reflexivity; try lia.
  fold shared in Hb, Hp.
  eexists. split; [exact Hrel|].
  assert (Hsegs : Forall segment (repeat ".." (List.length lhs - shared) ++ skipn shared rhs)).
  { apply Forall_app. split.
    - apply Forall_repeat_of, dotdot_segment.
    - apply Forall_skipn_of, plain_segment, Hr. }
  rewrite (resolve1 to). fold rhs.
  destruct (repeat ".." (List.length lhs - shared) ++ skipn shared rhs) as [|x l] eqn:E.
  - apply app_eq_nil in E as [Ek Et].
    assert (Hk : List.length lhs - shared = 0) by (destruct (List.length lhs - shared); [reflexivity | discriminate]).
    apply (f_equal (@List.length string)) in Et. rewrite length_skipn in Et. simpl in Et.
    change (JS.join "/" []) with "". rewrite resolve2_empty, resolve1. fold lhs.
    assert (lhs = rhs) as ->; [|reflexivity].
    rewrite <- (firstn_all lhs), <- (firstn_all rhs).
    replace (List.length lhs) with shared by lia.
    replace (List.length rhs) with shared by lia. exact Hp.
  - rewrite resolve2.
    + rewrite segments_join by assumption. rewrite <- E.
      rewrite collapsed_climb by now apply Forall_skipn_of.
      fold lhs.
      replace (List.length lhs - (List.length lhs - shared)) with shared by lia.
      now rewrite Hp, firstn_skipn.
    + apply join_cons_not_empty. inversion Hsegs as [|? ? [Hx _] _]. exact Hx.
    + now apply join_not_absolute.
Qed.

Lemma relative_same (from to : string) :
  resolve [JStr from] = resolve [JStr to] -> relative from to = Ok "".
Proof.
  rewrite !resolve1. intros H. injection H as H.
  rewrite relative_segments.
  apply join_injective in H; try (apply plain_segment, collapsed_plain, segments_are_segments).
  rewrite H, Nat.min_id, shared_loop_same by lia. simpl Nat.add.
  now rewrite Nat.sub_diag, skipn_all.
Qed.

(** ** normalize *)

Lemma normalize_assemble (p : string) :
  normalize p = assemble (isAbsolute p) (ends_with "/" p) (normalize_parts p).
Proof. unfold normalize. now rewrite trailingSlash_ends_with. Qed.

(** The segments kept: unresolved '..' first (relative paths only), then
    plain segments. *)
Lemma normalize_parts_shape (p : string) :
  exists k kept,
    normalize_parts p = repeat ".." k ++ kept /\ Forall plain kept /\
    (isAbsolute p = true -> k = 0).
Proof.
  unfold normalize_parts. rewrite normalizeArray_collapse.
  exists (if isAbsolute p then 0 else snd (collapse (rev (segments p)) 0 [])),
         (collapsed (segments p)).
  split; [|split].
  - now destruct (isAbsolute p).
  - apply collapsed_plain, segments_are_segments.
  - now intros ->.
Qed.

Lemma normalize_parts_segments (p : string) : Forall segment (normalize_parts p).
Proof.
  destruct (normalize_parts_shape p) as (k & kept & -> & Hk & _).
  apply Forall_app. split.
  - apply Forall_repeat_of, dotdot_segment.
  - now apply plain_segment.
Qed.

Lemma normalizeArray_fixed (k : nat) (kept : list string) (allow : bool) :
  Forall plain kept -> (allow = false -> k = 0) ->
  normalizeArray (repeat ".." k ++ kept) allow = repeat ".." k ++ kept.
Proof.
  intros Hk Ha. rewrite normalizeArray_collapse.
  rewrite rev_app_distr, rev_repeat, collapse_app.
  rewrite (collapse_plain (rev kept)) by now apply Forall_rev.
  cbn [fst snd]. rewrite rev_involutive, app_nil_r, collapse_dotdots. cbn [fst snd].
  destruct allow; [reflexivity|]. now rewrite Ha.
Qed.

Lemma assemble_nonempty (a t : bool) (parts : list string) :
  Forall segment parts -> parts <> [] ->
  assemble a t parts =
  ((if a then "/" else "") ++ JS.join "/" parts ++ (if t then "/" else ""))%string.
Proof.
  intros Hs Hne. unfold assemble.
  destruct parts as [|x l]; [congruence|].
  inversion Hs as [|? ? [Hx _] _]; subst.
  pose proof (join_cons_not_empty x l Hx) as Hj. apply truthy_true in Hj.
  cbv zeta. rewrite Hj. cbn [negb andb]. rewrite Hj. cbn [andb].
  destruct t; [reflexivity | now rewrite append_nil_r].
Qed.

Lemma assemble_empty (a t : bool) :
  assemble a t [] = if a then "/" else if t then "./" else ".".
Proof. now destruct a, t. Qed.

(** What a second [normalize] sees of an assembled path. *)
Lemma assemble_observed (a t : bool) (parts : list string) :
  Forall segment parts -> parts <> [] ->
  isAbsolute (assemble a t parts) = a /\
  ends_with "/" (assemble a t parts) = t /\
  segments (assemble a t parts) = parts.
Proof.
  intros Hs Hne. rewrite assemble_nonempty by assumption.
  assert (Hj : JS.join "/" parts <> "").
  { destruct parts as [|x l]; [congruence|].
    inversion Hs as [|? ? [Hx _] _]. now apply join_cons_not_empty. }
  split; [|split].
  - destruct a; [reflexivity|]. simpl append.
    rewrite isAbsolute_append by assumption. now apply join_not_absolute.
  - rewrite <- append_assoc. destruct t.
    + apply ends_with_snoc.
    + rewrite append_nil_r, ends_with_app by assumption.
      now apply join_no_trailing_slash.
  - assert (E : segments (JS.join "/" parts ++ (if t then "/" else "")) = parts).
    { destruct t; [rewrite segments_slash_r | rewrite append_nil_r];
        now apply segments_join. }
    destruct a; [|exact E].
    change (segments (String "/" (JS.join "/" parts ++ (if t then "/" else ""))) = parts).
    now rewrite segments_slash_l.
Qed.

Lemma normalize_idempotent (p : string) : normalize (normalize p) = normalize p.
Proof.
  rewrite (normalize_assemble p).
  pose proof (normalize_parts_segments p) as Hs.
  destruct (normalize_parts_shape p) as (k & kept & E & Hk & Ha).
  set (a := isAbsolute p) in *. set (t := ends_with "/" p).
  destruct (normalize_parts p) as [|x l] eqn:Ep.
  - rewrite assemble_empty. now destruct a, t.
  - destruct (assemble_observed a t (x :: l)) as (H1 & H2 & H3);
      [assumption | discriminate |].
    rewrite normalize_assemble. unfold normalize_parts.
    rewrite H1, H2, H3, E. f_equal. apply normalizeArray_fixed; [assumption|].
    destruct a; simpl; [intros _; now apply Ha | discriminate].
Qed.

Lemma normalize_isAbsolute (p : string) : isAbsolute (normalize p) = isAbsolute p.
Proof.
  rewrite normalize_assemble.
  pose proof (normalize_parts_segments p) as Hs.
  destruct (normalize_parts p) as [|x l].
  - rewrite assemble_empty. now destruct (isAbsolute p), (ends_with "/" p).
  - now apply assemble_observed.
Qed.

(** ** The matchers of pathRegExp *)

Lemma all_chars_app (cls : ascii -> bool) (a b : string) :
  all_chars cls (a ++ b) = all_chars cls a && all_chars cls b.
Proof.
  induction a as [|x a IH]; simpl; [reflexivity|].
  now rewrite IH, andb_assoc.
Qed.

Lemma all_chars_weaken (c1 c2 : ascii -> bool) (s : string) :
  (forall c, c1 c = true -> c2 c = true) ->
  all_chars c1 s = true -> all_chars c2 s = true.
Proof.
  intros Hc. induction s as [|x s IH]; simpl; [reflexivity|].
  intros H. apply andb_true_iff in H as [Hx Hs].
  now rewrite (Hc x Hx), IH.
Qed.

Lemma no_slash_all_chars (s : string) : all_chars Re.not_slash s = no_slash s.
Proof. induction s as [|x s IH]; simpl; [reflexivity | now rewrite IH]. Qed.

Lemma all_slash_all_chars (s : string) : all_chars Re.is_slash s = all_slash s.
Proof. induction s as [|x s IH]; simpl; [reflexivity | now rewrite IH]. Qed.

Lemma consumes_eps (cls : ascii -> bool) : consumes cls Re.eps.
Proof. intros s x r [H|[]]. injection H as <- <-. now split. Qed.

Lemma consumes_chr (c1 cls : ascii -> bool) :
  (forall c, c1 c = true -> cls c = true) -> consumes cls (Re.chr c1).
Proof.
  intros Hc [|c s] x r H; simpl in H; [contradiction|].
  destruct (c1 c) eqn:E; [|contradiction].
  destruct H as [H|[]]. injection H as <- <-.
  split; [reflexivity|]. simpl. now rewrite (Hc c E).
Qed.

Lemma consumes_seq (cls : ascii -> bool) (a b : Re.matcher) :
  consumes cls a -> consumes cls b -> consumes cls (Re.seq a b).
Proof.
  intros Ha Hb s x r H. unfold Re.seq in H.
  apply in_flat_map in H as ([x1 r1] & H1 & H2).
  apply in_map_iff in H2 as ([x2 r2] & E & H2). cbn [fst snd] in *.
  injection E as <- <-.
  destruct (Ha _ _ _ H1) as [-> A1]. destruct (Hb _ _ _ H2) as [-> A2].
  split; [now rewrite append_assoc|].
  now rewrite all_chars_app, A1, A2.
Qed.

Lemma consumes_alt (cls : ascii -> bool) (a b : Re.matcher) :
  consumes cls a -> consumes cls b -> consumes cls (Re.alt a b).
Proof.
  intros Ha Hb s x r H. apply in_app_or in H as [H|H]; [now apply Ha | now apply Hb].
Qed.

Lemma consumes_star (c1 cls : ascii -> bool) :
  (forall c, c1 c = true -> cls c = true) -> consumes cls (Re.star c1).
Proof.
  intros Hc s. induction s as [|c s IH]; intros x r H; simpl in H.
  - destruct H as [H|[]]. injection H as <- <-. now split.
  - destruct (c1 c) eqn:E.
    + apply in_app_or in H as [H|[H|[]]].
      * apply in_map_iff in H as ([x' r'] & E' & H). simpl in E'. injection E' as <- <-.
        destruct (IH _ _ H) as [-> A]. split; [reflexivity|].
        simpl. now rewrite (Hc c E).
      * injection H as <- <-. now split.
    + destruct H as [H|[]]. injection H as <- <-. now split.
Qed.

Lemma consumes_star_lazy (c1 cls : ascii -> bool) :
  (forall c, c1 c = true -> cls c = true) -> consumes cls (Re.star_lazy c1).
Proof.
  intros Hc s. induction s as [|c s IH]; intros x r H; simpl in H.
  - destruct H as [H|[]]. injection H as <- <-. now split.
  - destruct H as [H|H]; [injection H as <- <-; now split|].
    destruct (c1 c) eqn:E; [|contradiction].
    apply in_map_iff in H as ([x' r'] & E' & H). simpl in E'. injection E' as <- <-.
    destruct (IH _ _ H) as [-> A]. split; [reflexivity|].
    simpl. now rewrite (Hc c E).
Qed.

Lemma star_all (cls : ascii -> bool) (x r : string) :
  all_chars cls x = true -> In (x, r) (Re.star cls (x ++ r)).
Proof.
  induction x as [|c x IH]; simpl; intros H.
  - destruct r as [|c r]; simpl; [now left|].
    destruct (cls c); [apply in_or_app; right|]; now left.
  - apply andb_true_iff in H as [Hc Hx]. rewrite Hc.
    apply in_or_app. left.
    apply in_map_iff. exists (x, r). split; [reflexivity | now apply IH].
Qed.

Lemma star_lazy_all (cls : ascii -> bool) (x r : string) :
  all_chars cls x = true -> In (x, r) (Re.star_lazy cls (x ++ r)).
Proof.
  induction x as [|c x IH]; simpl; intros H.
  - destruct r; now left.
  - apply andb_true_iff in H as [Hc Hx]. rewrite Hc. right.
    apply in_map_iff. exists (x, r). split; [reflexivity | now apply IH].
Qed.

Lemma dot_not_slash (c : ascii) : Re.is_dot c = true -> Re.not_slash c = true.
Proof.
  unfold Re.is_dot, Re.not_slash, Re.is_slash. intros H.
  apply Ascii.eqb_eq in H. now subst c.
Qed.

Lemma not_dot_slash_not_slash (c : ascii) :
  Re.not_dot_slash c = true -> Re.not_slash c = true.
Proof. unfold Re.not_dot_slash. intros H. now apply andb_true_iff in H. Qed.

Lemma g3_name_consumes : consumes Re.not_slash g3_name.
Proof.
  unfold g3_name, Re.opt, Re.plus_lazy.
  repeat first [ apply consumes_alt | apply consumes_seq | apply consumes_eps
               | apply consumes_chr; auto using dot_not_slash
               | apply consumes_star_lazy; auto ].
Qed.

Lemma g4_consumes : consumes Re.not_slash g4.
Proof.
  unfold g4.
  repeat first [ apply consumes_alt | apply consumes_seq | apply consumes_eps
               | apply consumes_chr; auto using dot_not_slash
               | apply consumes_star; auto using not_dot_slash_not_slash ].
Qed.

Lemma slashes_consumes : consumes Re.is_slash slashes.
Proof. apply consumes_star. auto. Qed.

(** Every way to match the end of the pattern splits the input into a
    slash-free final segment, ending with the extension, and slashes. *)
Lemma pathRegExp_tail_sound (s base ext : string) :
  In (base, ext) (pathRegExp_tail s) ->
  exists nm tl, s = (base ++ tl)%string /\ base = (nm ++ ext)%string /\
                no_slash base = true /\ all_slash tl = true.
Proof.
  unfold pathRegExp_tail. intros H.
  apply in_flat_map in H as ([nm r1] & H1 & H).
  apply in_flat_map in H as ([e r2] & H2 & H).
  apply in_flat_map in H as ([sl r3] & H3 & H).
  apply in_map_iff in H as ([z r4] & E & H4). cbn [fst snd] in *.
  injection E as <- <-.
  destruct (g3_name_consumes _ _ _ H1) as [-> A1].
  destruct (g4_consumes _ _ _ H2) as [-> A2].
  destruct (slashes_consumes _ _ _ H3) as [-> A3].
  destruct r3; [|contradiction].
  exists nm, sl. rewrite append_nil_r, append_assoc.
  repeat split.
  - now rewrite <- no_slash_all_chars, all_chars_app, A1, A2.
  - now rewrite <- all_slash_all_chars.
Qed.

(** A slash-free segment followed by slashes matches the end of the pattern. *)
Lemma pathRegExp_tail_complete (base tl : string) :
  no_slash base = true -> all_slash tl = true -> pathRegExp_tail (base ++ tl) <> [].
Proof.
  intros Hb Ht.
  assert (Hin : In (base ++ "", "")%string (pathRegExp_tail (base ++ tl))).
  { unfold pathRegExp_tail.
    apply in_flat_map. exists (base, tl). split.
    - unfold g3_name, Re.alt. destruct base as [|c base].
      + apply in_or_app. right. apply in_or_app. right. now left.
      + apply in_or_app. right. apply in_or_app. left.
        unfold Re.plus_lazy, Re.seq. simpl in Hb.
        apply andb_true_iff in Hb as [Hc Hb].
        apply in_flat_map. exists (String c "", (base ++ tl)%string). split.
        * simpl. unfold Re.not_slash, Re.is_slash. rewrite Hc. now left.
        * apply in_map_iff. exists (base, tl). split; [reflexivity|].
          apply star_lazy_all. now rewrite no_slash_all_chars.
    - cbn [fst snd]. apply in_flat_map. exists ("", tl). split.
      + unfold g4, Re.alt. apply in_or_app. right. now left.
      + cbn [fst snd]. apply in_flat_map. exists (tl, ""). split.
        * pose proof (star_all Re.is_slash tl "") as H.
          rewrite append_nil_r in H. apply H. now rewrite all_slash_all_chars.
        * now left. }
  intros E. now rewrite E in Hin.
Qed.

(** ** The first match of pathRegExp *)

Lemma flat_map_of_map {A B C : Type} (f : B -> list C) (g : A -> B) (l : list A) :
  flat_map f (map g l) = flat_map (fun x => f (g x)) l.
Proof. induction l as [|x l IH]; simpl; [reflexivity | now rewrite IH]. Qed.

(** Group 2 is lazy: the end of the pattern is tried on the input left
    before group 2 takes one more character. *)
Lemma matches_from_unfold (root pre s : string) :
  matches_from root pre s =
  map (fun m34 => [root; pre; fst m34; snd m34]) (pathRegExp_tail s) ++
  match s with
  | String c s' => matches_from root (pre ++ String c "") s'
  | EmptyString => []
  end.
Proof.
  unfold matches_from, g2.
  destruct s as [|c s]; cbn [Re.star_lazy flat_map fst snd]; rewrite append_nil_r.
  - reflexivity.
  - f_equal. unfold Re.any at 1. rewrite flat_map_of_map.
    apply flat_map_ext. intros [x r]. cbn [fst snd].
    now rewrite append_assoc.
Qed.

Lemma matches_from_first (root : string) (s pre : string) :
  exists dir base ext nm tl,
    hd_error (matches_from root pre s) = Some [root; (pre ++ dir)%string; base; ext] /\
    s = (dir ++ base ++ tl)%string /\
    (dir = "" \/ ends_with "/" dir = true) /\
    base = (nm ++ ext)%string /\ no_slash base = true /\ all_slash tl = true.
Proof.
  revert pre. induction s as [|c s IH]; intros pre; rewrite matches_from_unfold.
  - destruct (pathRegExp_tail "") as [|[base ext] rest] eqn:E.
    + now apply (pathRegExp_tail_complete "" "") in E.
    + assert (Hin : In (base, ext) (pathRegExp_tail "")) by (rewrite E; now left).
      apply pathRegExp_tail_sound in Hin as (nm & tl & Hs & Hb & Hn & Ht).
      exists "", base, ext, nm, tl. rewrite append_nil_r. cbn [map app hd_error fst snd].
      repeat split; try assumption. now left.
  - destruct (pathRegExp_tail (String c s)) as [|[base ext] rest] eqn:E.
    + cbn [map app].
      destruct (IH (pre ++ String c "")%string)
        as (dir & base & ext & nm & tl & Hh & Hs & Hd & Hb & Hn & Ht).
      exists (String c dir), base, ext, nm, tl.
      rewrite append_assoc in Hh. repeat split; try assumption.
      * simpl. now rewrite Hs.
      * right. destruct Hd as [-> | Hd].
        -- simpl. destruct (Ascii.eqb c "/") eqn:Hc; [reflexivity|]. exfalso.
           simpl in Hs. subst s.
           apply (pathRegExp_tail_complete (String c base) tl); try assumption.
           simpl. now rewrite Hc.
        -- simpl. destruct dir; [discriminate | exact Hd].
    + assert (Hin : In (base, ext) (pathRegExp_tail (String c s))) by (rewrite E; now left).
      apply pathRegExp_tail_sound in Hin as (nm & tl & Hs & Hb & Hn & Ht).
      exists "", base, ext, nm, tl. rewrite append_nil_r. cbn [map app hd_error fst snd].
      repeat split; try assumption. now left.
Qed.

Lemma pathRegExp_matches_g1 (s : string) :
  pathRegExp_matches s =
  match s with
  | String c s' => if Re.is_slash c then matches_from "/" "" s' else []
  | EmptyString => []
  end ++ matches_from "" "" s ++ matches_from "" "" s.
Proof.
  unfold pathRegExp_matches, g1, Re.opt, Re.alt, Re.eps, matches_from.
  rewrite !flat_map_app. cbn [flat_map fst snd]. rewrite !app_nil_r, <- app_assoc.
  apply (f_equal2 (@app _)); [|reflexivity].
  destruct s as [|c s]; [reflexivity|].
  cbn [Re.chr]. destruct (Re.is_slash c) eqn:Hc; [|reflexivity].
  apply Ascii.eqb_eq in Hc. subst c.
  cbn [flat_map fst snd]. now rewrite app_nil_r.
Qed.

Lemma hd_error_app_some {A : Type} (l1 l2 : list A) (x : A) :
  hd_error l1 = Some x -> hd_error (l1 ++ l2) = Some x.
Proof. destruct l1; simpl; [discriminate | auto]. Qed.

(** The match always succeeds, and the captures are: the leading slash if
    there is one; the text up to and including the slash before the final
    segment; the final segment; its extension. *)
Lemma parse_shape (p : string) :
  exists dir base ext nm tl,
    let root := if isAbsolute p then "/" else "" in
    parse p = Ok [root; dir; base; ext] /\
    p = (root ++ dir ++ base ++ tl)%string /\
    (dir = "" \/ ends_with "/" dir = true) /\
    base = (nm ++ ext)%string /\ no_slash base = true /\ all_slash tl = true.
Proof.
  assert (Hp : forall groups, hd_error (pathRegExp_matches p) = Some groups ->
                              parse p = Ok groups).
  { intros groups H. unfold parse, pathRegExp_exec.
    destruct (pathRegExp_matches p) as [|g rest]; [discriminate|].
    injection H as ->. change 1%Z with (Z.of_nat 1).
    now rewrite aslice_skipn by (simpl; lia). }
  rewrite pathRegExp_matches_g1 in Hp.
  destruct p as [|c p].
  - destruct (matches_from_first "" "" "")
      as (dir & base & ext & nm & tl & Hh & Hs & Hd & Hb & Hn & Ht).
    exists dir, base, ext, nm, tl. cbn zeta. cbn [isAbsolute charAt0_is].
    repeat split; try assumption.
    apply Hp. cbn [app]. now apply hd_error_app_some.
  - unfold isAbsolute. cbn [charAt0_is]. fold (Re.is_slash c) in *.
    destruct (Re.is_slash c) eqn:Hc.
    + destruct (matches_from_first "/" p "")
        as (dir & base & ext & nm & tl & Hh & Hs & Hd & Hb & Hn & Ht).
      exists dir, base, ext, nm, tl. cbn zeta.
      repeat split; try assumption.
      * apply Hp. now apply hd_error_app_some.
      * apply Ascii.eqb_eq in Hc. subst c. simpl. now rewrite Hs.
    + destruct (matches_from_first "" (String c p) "")
        as (dir & base & ext & nm & tl & Hh & Hs & Hd & Hb & Hn & Ht).
      exists dir, base, ext, nm, tl. cbn zeta.
      repeat split; try assumption.
      apply Hp. cbn [app]. now apply hd_error_app_some.
Qed.

(** ** dirname and basename *)

Lemma segments_all_slash (t : string) : all_slash t = true -> segments t = [].
Proof.
  induction t as [|c t IH]; simpl; [reflexivity|].
  intros H. apply andb_true_iff in H as [Hc Ht].
  apply Ascii.eqb_eq in Hc. subst c. rewrite segments_slash_l. now apply IH.
Qed.

Lemma segments_trailing_slashes (s t : string) :
  all_slash t = true -> segments (s ++ t) = segments s.
Proof.
  destruct t as [|c t]; simpl; intros H.
  - now rewrite append_nil_r.
  - apply andb_true_iff in H as [Hc Ht]. apply Ascii.eqb_eq in Hc. subst c.
    change (String "/" t) with ("/" ++ t)%string.
    now rewrite segments_app, (segments_all_slash t Ht), app_nil_r.
Qed.

Lemma ends_with_inv (c : ascii) (s : string) :
  ends_with c s = true -> exists s0, s = (s0 ++ String c "")%string.
Proof.
  destruct (snoc_cases s) as [-> | (s0 & d & ->)]; [discriminate|].
  rewrite ends_with_snoc. intros H. apply Ascii.eqb_eq in H. subst d. now exists s0.
Qed.

Lemma collapsed_dot_l (l : list string) : collapsed ("." :: l) = collapsed l.
Proof.
  unfold collapsed. simpl rev. rewrite collapse_app. simpl.
  now destruct (collapse (rev l) 0 []).
Qed.

(** [dirname] and [basename] cut the path before its final segment. *)
Lemma dirname_basename_segments (p : string) :
  exists d b,
    dirname p = Ok d /\ basename p None = Ok b /\ no_slash b = true /\
    (segments p = segments d ++ segments b \/ (d = "." /\ segments p = segments b)).
Proof.
  destruct (parse_shape p) as (dir & base & ext & nm & tl & Hparse & Hp & Hd & _ & Hb & Ht).
  cbv zeta in Hparse, Hp.
  unfold dirname, basename. rewrite Hparse. cbn [bind nth].
  destruct Hd as [-> | Hd].
  - cbn [truthy String.eqb negb andb]. simpl append in Hp.
    destruct (isAbsolute p).
    + exists "/", base. repeat split; try assumption. left.
      rewrite Hp. simpl append. rewrite !segments_slash_l.
      now rewrite segments_trailing_slashes.
    + exists ".", base. repeat split; try assumption. right. split; [reflexivity|].
      rewrite Hp. simpl append. now rewrite segments_trailing_slashes.
  - apply ends_with_inv in Hd as [dir0 ->].
    assert (Hne : truthy (dir0 ++ "/") = true) by (apply truthy_true; destruct dir0; discriminate).
    rewrite Hne, slice_init. rewrite andb_false_r.
    remember (if isAbsolute p then "/" else "") as root eqn:Hroot.
    exists (root ++ dir0)%string, base. repeat split; try assumption. left.
    rewrite Hp, <- !append_assoc, segments_trailing_slashes by assumption.
    rewrite (append_assoc _ "/" base).
    apply (segments_app _ base).
Qed.

(** ** Argument validation *)

Lemma join_filter_strings (args : list string) :
  join_filter (map JStr args) = Ok (filter truthy args).
Proof.
  induction args as [|p args IH]; simpl; [reflexivity|].
  rewrite IH. simpl. now destruct (truthy p).
Qed.

Lemma join_filter_throws (args : list jsval) :
  Exists (fun v => is_string v = false) args -> join_filter args = throw_path.
Proof.
  induction 1 as [v l Hv | v l _ IH].
  - destruct v; try reflexivity. discriminate.
  - destruct v; try reflexivity. simpl. now rewrite IH.
Qed.

Lemma nth_middle_val (front : list jsval) (v : jsval) (rest : list jsval) :
  nth (List.length front) (front ++ v :: rest) JUndefined = v.
Proof. rewrite app_nth2, Nat.sub_diag by lia. reflexivity. Qed.

(** Strings that are not absolute do not stop the scan. *)
Lemma resolve_loop_relative_suffix (suf : list string) (front : list jsval) (acc : string) :
  Forall (fun s => isAbsolute s = false) suf ->
  exists acc',
    resolve_loop (S (List.length front + List.length suf)) (front ++ map JStr suf) acc false =
    resolve_loop (S (List.length front)) front acc' false.
Proof.
  revert acc. induction suf as [|x suf IH] using rev_ind; intros acc H.
  - exists acc. simpl. now rewrite app_nil_r, Nat.add_0_r.
  - apply Forall_app in H as [Hs Hx]. inversion Hx as [|? ? Hx' _]; subst.
    rewrite length_app, map_app. simpl List.length. simpl map.
    replace (S (List.length front + (List.length suf + 1)))
      with (S (S (List.length (front ++ map JStr suf))))
      by (rewrite length_app, length_map; lia).
    rewrite resolve_loop_step, app_assoc, nth_middle_val.
    unfold isAbsolute in Hx'. rewrite Hx'.
    destruct (negb (truthy x));
      rewrite (resolve_loop_ignores _ (front ++ map JStr suf) [JStr x]) by lia;
      rewrite length_app, length_map; now apply IH.
Qed.

(** Strings never make the scan throw: it either stops on an absolute one
    or reaches the arguments before them. *)
Lemma resolve_loop_string_suffix (suf : list string) (front : list jsval) (acc : string) :
  (exists acc',
     resolve_loop (S (List.length front + List.length suf)) (front ++ map JStr suf) acc false =
     Ok (acc', true)) \/
  (exists acc',
     resolve_loop (S (List.length front + List.length suf)) (front ++ map JStr suf) acc false =
     resolve_loop (S (List.length front)) front acc' false).
Proof.
  revert acc. induction suf as [|x suf IH] using rev_ind; intros acc.
  - right. exists acc. simpl. now rewrite app_nil_r, Nat.add_0_r.
  - rewrite length_app, map_app. simpl List.length. simpl map.
    replace (S (List.length front + (List.length suf + 1)))
      with (S (S (List.length (front ++ map JStr suf))))
      by (rewrite length_app, length_map; lia).
    rewrite resolve_loop_step, app_assoc, nth_middle_val.
    destruct (negb (truthy x)).
    + rewrite (resolve_loop_ignores _ (front ++ map JStr suf) [JStr x]) by lia.
      rewrite length_app, length_map. apply IH.
    + destruct (charAt0_is "/" x).
      * left. eexists. reflexivity.
      * rewrite (resolve_loop_ignores _ (front ++ map JStr suf) [JStr x]) by lia.
        rewrite length_app, length_map. apply IH.
Qed.

Lemma resolve_throws (pre : list jsval) (v : jsval) (suf : list string) :
  is_string v = false -> Forall (fun s => isAbsolute s = false) suf ->
  resolve (pre ++ v :: map JStr suf) = throw_path.
Proof.
  intros Hv Hs. unfold resolve.
  destruct (resolve_loop_relative_suffix suf (pre ++ [v]) "" Hs) as [acc' E].
  rewrite <- app_assoc in E. simpl app in E.
  replace (List.length (pre ++ v :: map JStr suf) + 1)
    with (S (List.length (pre ++ [v]) + List.length suf))
    by (rewrite !length_app; simpl; rewrite length_map; lia).
  rewrite E, length_app, Nat.add_comm. simpl Nat.add.
  rewrite resolve_loop_step, nth_middle_val.
  destruct v; try reflexivity. discriminate.
Qed.

Lemma resolve_stops (pre : list jsval) (a : string) (suf : list string) :
  isAbsolute a = true -> exists r, resolve (pre ++ JStr a :: map JStr suf) = Ok r.
Proof.
  intros Ha. unfold resolve.
  replace (List.length (pre ++ JStr a :: map JStr suf) + 1)
    with (S (List.length (pre ++ [JStr a]) + List.length suf))
    by (rewrite !length_app; simpl; rewrite length_map; lia).
  destruct (resolve_loop_string_suffix suf (pre ++ [JStr a]) "") as [[acc' E] | [acc' E]];
    rewrite <- app_assoc in E; simpl app in E; rewrite E.
  - eexists. reflexivity.
  - rewrite length_app, Nat.add_comm. simpl Nat.add.
    rewrite resolve_loop_step, nth_middle_val.
    assert (Ht : truthy a = true) by (apply truthy_true; destruct a; discriminate).
    unfold isAbsolute in Ha. rewrite Ht, Ha. cbn [negb resolve_loop].
    eexists. reflexivity.
Qed.

Lemma collapse_incl (r : list string) (up : nat) (kept : list string) (x : string) :
  In x (fst (collapse r up kept)) -> In x r \/ In x kept.
Proof.
  revert up kept. induction r as [|y r IH]; intros up kept H; simpl in *.
  - now right.
  - destruct (y =? ".");
      [|destruct (y =? "..");
        [|destruct up]];
      apply IH in H as [H | H]; auto.
    destruct H as [-> | H]; auto.
Qed.

Lemma collapsed_incl (parts : list string) : incl (collapsed parts) parts.
Proof.
  intros x H. apply collapse_incl in H as [H | []]. now apply in_rev.
Qed.

Lemma all_slash_ends_with (t : string) :
  all_slash t = true -> t <> "" -> ends_with "/" t = true.
Proof.
  induction t as [|c t IH]; [congruence|]. simpl. intros H _.
  apply andb_true_iff in H as [Hc Ht].
  destruct t; [exact Hc | now apply IH].
Qed.

(** * The claims of the specification *)

(** C1. For all strings [from] and [to], [relative(from, to)] returns a
    string [rel] with [resolve(from, rel) = resolve(to)]; and when [from] and
    [to] resolve to the same absolute path, [relative(from, to)] is the empty
    string. *)
Theorem relative_roundtrip (from to : string) :
  (exists rel, relative from to = Ok rel /\
               resolve [JStr from; JStr rel] = resolve [JStr to]) /\
  (resolve [JStr from] = resolve [JStr to] -> relative from to = Ok "").
Proof.
  split; [apply relative_resolves_back | apply relative_same].
Qed.

Lemma relative_roundtrip_witness : relative "/a/b/" "a/./b" = Ok "".
Proof. apply (proj2 (relative_roundtrip "/a/b/" "a/./b")). vm_compute. reflexivity. Defined.

(** C2. [resolve('/a/b', '../c')] is ['/a/c'], and [resolve()] with no
    argument is ['/']. *)
Theorem resolve_examples :
  resolve [JStr "/a/b"; JStr "../c"] = Ok "/a/c" /\ resolve [] = Ok "/".
Proof. split; vm_compute; reflexivity. Qed.

(** C3, as the claim states it, fails for [resolve]: a non-string argument
    to the left of an absolute fragment is never looked at, so
    [resolve(undefined, '/a')] returns ['/a']. *)
Lemma resolve_accepts_unvisited_nonstring :
  is_string JUndefined = false /\
  resolve [JUndefined; JStr "/a"] = Ok "/a" /\
  ~ (forall args : list jsval,
       Exists (fun v => is_string v = false) args ->
       (exists msg, resolve args = TypeError msg) /\
       (exists msg, Path.join args = TypeError msg)).
Proof.
  split; [reflexivity|]. split; [vm_compute; reflexivity|].
  intros H.
  destruct (H [JUndefined; JStr "/a"]) as [[msg E] _].
  - now left.
  - vm_compute in E. discriminate.
Qed.

(** C3 (amended). [join] raises the TypeError whenever some argument is not
    a string.  [resolve] raises it when a non-string argument is followed
    only by strings that do not start with '/'; and when a string starting
    with '/' is followed only by strings, [resolve] returns a path whatever
    the arguments before it are. *)
Theorem argument_validation
    (args pre : list jsval) (v : jsval) (a : string) (suf : list string) :
  (Exists (fun v => is_string v = false) args -> Path.join args = throw_path) /\
  (is_string v = false -> Forall (fun s => isAbsolute s = false) suf ->
   resolve (pre ++ v :: map JStr suf) = throw_path) /\
  (isAbsolute a = true -> exists r, resolve (pre ++ JStr a :: map JStr suf) = Ok r).
Proof.
  split; [|split].
  - intros H. unfold Path.join. now rewrite join_filter_throws.
  - apply resolve_throws.
  - apply resolve_stops.
Qed.

Lemma argument_validation_witness :
  Path.join [JStr "a"; JNull; JStr "/b"] = throw_path /\
  resolve [JStr "/x"; JNum 7; JStr "b"; JStr "c"] = throw_path /\
  exists r, resolve [JObject; JStr "/a"; JStr "b"; JStr "c"] = Ok r.
Proof.
  pose proof (argument_validation [JStr "a"; JNull; JStr "/b"] [JStr "/x"] (JNum 7)
                "/a" ["b"; "c"]) as (H1 & H2 & _).
  pose proof (argument_validation [] [JObject] JNull "/a" ["b"; "c"]) as (_ & _ & H3).
  split; [|split].
  - apply H1. right. left. reflexivity.
  - apply H2; [reflexivity | repeat constructor].
  - apply H3. reflexivity.
Defined.

(** C4. [normalize] is idempotent. *)
Theorem normalize_idempotence (p : string) : normalize (normalize p) = normalize p.
Proof. apply normalize_idempotent. Qed.

(** C5. [resolve] of strings returns an absolute path; [normalize] preserves
    [isAbsolute]; and [isAbsolute] holds exactly of the strings whose first
    character is '/', so not of the empty string. *)
Theorem absoluteness_preserved :
  (forall args : list string,
     exists r, resolve (map JStr args) = Ok r /\ isAbsolute r = true) /\
  (forall p : string, isAbsolute (normalize p) = isAbsolute p) /\
  (forall s : string, isAbsolute s = true <-> exists t, s = String "/" t) /\
  isAbsolute "" = false.
Proof.
  split; [|split; [|split]].
  - intros args. eexists. split; [apply resolve_strings | reflexivity].
  - apply normalize_isAbsolute.
  - intros [|c s]; simpl; split.
    + discriminate.
    + intros [t H]. discriminate.
    + intros H. apply Ascii.eqb_eq in H. subst c. now exists s.
    + intros [t H]. injection H as -> _. reflexivity.
  - reflexivity.
Qed.



(** C7. The worked examples of [dirname], [basename] and [extname]. *)
Theorem decomposition_examples :
  dirname "/a/b/c.txt" = Ok "/a/b" /\
  basename "/a/b/c.txt" None = Ok "c.txt" /\
  basename "/a/b/c.txt" (Some ".txt") = Ok "c" /\
  extname "/a/b/c.txt" = Ok ".txt" /\
  extname ".gitignore" = Ok "".
Proof. repeat split; vm_compute; reflexivity. Qed.

(** C8. For every string [p] that does not end with '/' and is none of
    '.', '..' and '/', [resolve(dirname(p), basename(p))] equals
    [resolve(p)]. *)
Theorem dirname_basename_roundtrip (p : string) :
  ends_with "/" p = false -> p <> "." -> p <> ".." -> p <> "/" ->
  exists d b,
    dirname p = Ok d /\ basename p None = Ok b /\
    resolve [JStr d; JStr b] = resolve [JStr p].
Proof.
  intros _ _ _ _.
  destruct (dirname_basename_segments p) as (d & b & Hd & Hb & Hn & Hs).
  exists d, b. split; [assumption|]. split; [assumption|].
  rewrite (resolve1 p).
  destruct b as [|c b].
  - rewrite resolve2_empty, resolve1.
    destruct Hs as [-> | [-> ->]]; [now rewrite app_nil_r | reflexivity].
  - rewrite resolve2; [|discriminate | now apply no_slash_not_absolute].
    destruct Hs as [-> | [-> ->]]; [reflexivity|].
    change (segments ".") with ["."]. simpl app. now rewrite collapsed_dot_l.
Qed.

Lemma dirname_basename_roundtrip_witness :
  exists d b,
    dirname "a//b/../c.d" = Ok d /\ basename "a//b/../c.d" None = Ok b /\
    resolve [JStr d; JStr b] = resolve [JStr "a//b/../c.d"].
Proof.
  apply (dirname_basename_roundtrip "a//b/../c.d");
    [reflexivity | discriminate | discriminate | discriminate].
Defined.

(** C9. On strings nothing throws: the pattern of [parse] matches every
    string and yields its four captures, so [dirname], [basename] (with or
    without [ext]) and [extname] return a string; [join] of strings returns
    [normalize] of the non-empty arguments joined by '/'; [relative] returns
    a string; and [normalize], which has no failing step, returns a
    non-empty string. *)
Theorem path_engine_total
    (p a b from to : string) (ext : option string) (args : list string) :
  (exists groups, parse p = Ok groups /\ List.length groups = 4) /\
  (exists r, dirname p = Ok r) /\
  (exists r, basename p ext = Ok r) /\
  (exists r, extname p = Ok r) /\
  Path.join (map JStr args) = Ok (normalize (JS.join "/" (filter truthy args))) /\
  (exists r, Path.join [JStr a; JStr b] = Ok r) /\
  (exists r, relative from to = Ok r) /\
  normalize p <> "".
Proof.
  destruct (parse_shape p) as (dir & base & e & nm & tl & Hparse & _).
  cbv zeta in Hparse.
  assert (Hj : forall l, Path.join (map JStr l) = Ok (normalize (JS.join "/" (filter truthy l)))).
  { intros l. unfold Path.join. now rewrite join_filter_strings. }
  repeat split.
  - eexists. split; [exact Hparse | reflexivity].
  - unfold dirname. rewrite Hparse. cbn [bind].
    match goal with |- context [if ?c then _ else _] => destruct c end;
      eexists; reflexivity.
  - unfold basename. rewrite Hparse. cbn [bind].
    destruct ext as [x|]; [|eexists; reflexivity].
    match goal with |- context [if ?c then _ else _] => destruct c end;
      eexists; reflexivity.
  - unfold extname. rewrite Hparse. eexists. reflexivity.
  - apply Hj.
  - eexists. apply (Hj [a; b]).
  - destruct (relative_resolves_back from to) as (rel & H & _). now exists rel.
  - rewrite normalize_assemble.
    pose proof (normalize_parts_segments p) as Hs.
    destruct (normalize_parts p) as [|x l] eqn:E.
    + rewrite assemble_empty. now destruct (isAbsolute p), (ends_with "/" p).
    + rewrite assemble_nonempty by (assumption || discriminate).
      inversion Hs as [|? ? [Hx _] _]; subst.
      pose proof (join_cons_not_empty x l Hx) as Hne.
      destruct (isAbsolute p); [discriminate|].
      remember (JS.join "/" (x :: l)) as j eqn:Ej.
      destruct j; [congruence | discriminate].
Qed.

(** C10. The path [resolve] returns for strings is '/' or does not end
    with '/': trailing slashes of the fragments are gone. *)
Theorem resolve_no_trailing_slash :
  (forall args : list string,
     exists r, resolve (map JStr args) = Ok r /\ (r = "/" \/ ends_with "/" r = false)) /\
  resolve [JStr "/a/b/"] = Ok "/a/b" /\
  resolve [JStr "a/"; JStr "b//"] = Ok "/a/b".
Proof.
  split; [|split; vm_compute; reflexivity].
  intros args. eexists. split; [apply resolve_strings|].
  set (parts := segments (resolve_scan (rev args) "")).
  assert (Hs : Forall segment (collapsed parts))
    by apply plain_segment, collapsed_plain, segments_are_segments.
  destruct (collapsed parts) as [|x l] eqn:E; [now left | right].
  inversion Hs as [|? ? [Hx _] _]; subst.
  rewrite ends_with_app by now apply join_cons_not_empty.
  now apply join_no_trailing_slash.
Qed.

(** * Further properties of the path engine *)




(** The scan of [resolve] over trailing strings, whatever the arguments
    before them are. *)
Lemma resolve_loop_scan (suf : list string) (front : list jsval) (acc : string) :
  resolve_loop (S (List.length front + List.length suf)) (front ++ map JStr suf) acc false =
  if snd (scan_strings (rev suf) acc)
  then Ok (fst (scan_strings (rev suf) acc), true)
  else resolve_loop (S (List.length front)) front (fst (scan_strings (rev suf) acc)) false.
Proof.
  revert acc. induction suf as [|x suf IH] using rev_ind; intros acc.
  - simpl. now rewrite app_nil_r, Nat.add_0_r.
  - rewrite rev_unit, length_app, map_app. simpl List.length. simpl map.
    replace (S (List.length front + (List.length suf + 1)))
      with (S (S (List.length (front ++ map JStr suf))))
      by (rewrite length_app, length_map; lia).
    rewrite resolve_loop_step, app_assoc, nth_middle_val.
    cbn [scan_strings].
    destruct (negb (truthy x)).
    + rewrite (resolve_loop_ignores _ (front ++ map JStr suf) [JStr x]) by lia.
      rewrite length_app, length_map. apply IH.
    + destruct (charAt0_is "/" x).
      * reflexivity.
      * rewrite (resolve_loop_ignores _ (front ++ map JStr suf) [JStr x]) by lia.
        rewrite length_app, length_map. apply IH.
Qed.

Lemma resolve_loop_restart (pre : list jsval) (a : string) (suf : list string) (acc : string) :
  isAbsolute a = true ->
  resolve_loop (List.length (pre ++ JStr a :: map JStr suf) + 1)
               (pre ++ JStr a :: map JStr suf) acc false =
  resolve_loop (List.length (JStr a :: map JStr suf) + 1) (JStr a :: map JStr suf) acc false.
Proof.
  intros Ha.
  assert (Ht : truthy a = true) by (apply truthy_true; destruct a; discriminate).
  unfold isAbsolute in Ha.
  pose proof (resolve_loop_scan suf (pre ++ [JStr a]) acc) as E1.
  pose proof (resolve_loop_scan suf [JStr a] acc) as E2.
  rewrite <- app_assoc in E1. simpl app in E1, E2.
  replace (List.length (pre ++ JStr a :: map JStr suf) + 1)
    with (S (List.length (pre ++ [JStr a]) + List.length suf))
    by (rewrite !length_app; simpl; rewrite length_map; lia).
  replace (List.length (JStr a :: map JStr suf) + 1)
    with (S (List.length [JStr a] + List.length suf))
    by (simpl; rewrite length_map; lia).
  rewrite E1, E2.
  destruct (snd (scan_strings (rev suf) acc)); [reflexivity|].
  rewrite length_app, Nat.add_comm. simpl Nat.add. simpl List.length.
  rewrite resolve_loop_step, nth_middle_val.
  rewrite (resolve_loop_step 0 [JStr a]). cbn [nth].
  rewrite !Ht, !Ha. reflexivity.
Qed.

(** X2. [resolve] restarts at an absolute fragment: when a string starting with
    '/' is followed only by strings, whatever stands before it (strings or
    not) has no effect on the result. *)
Theorem resolve_restarts_at_absolute (pre : list jsval) (a : string) (suf : list string) :
  isAbsolute a = true ->
  resolve (pre ++ JStr a :: map JStr suf) = resolve (JStr a :: map JStr suf).
Proof.
  intros Ha. unfold resolve. now rewrite resolve_loop_restart.
Qed.

Lemma resolve_restarts_at_absolute_witness :
  resolve ([JStr "x"; JNull] ++ JStr "/a" :: map JStr ["b"; "../c"]) =
  resolve (JStr "/a" :: map JStr ["b"; "../c"]).
Proof. apply resolve_restarts_at_absolute. reflexivity. Defined.

Lemma resolve_scan_filter (r : list string) (acc : string) :
  resolve_scan (filter truthy r) acc = resolve_scan r acc.
Proof.
  revert acc. induction r as [|p r IH]; intros acc; simpl; [reflexivity|].
  destruct (truthy p) eqn:Ht; simpl; [|apply IH].
  rewrite Ht. simpl. destruct (isAbsolute p); [reflexivity | apply IH].
Qed.

(** X3. Empty fragments are ignored by [resolve]. *)
Theorem resolve_skips_empty (args : list string) :
  resolve (map JStr args) = resolve (map JStr (filter truthy args)).
Proof.
  rewrite !resolve_strings. now rewrite <- filter_rev, resolve_scan_filter.
Qed.

Lemma segments_resolved (l : list string) :
  Forall segment l -> segments (String "/" (JS.join "/" l)) = l.
Proof. intros H. rewrite segments_slash_l. now apply segments_join. Qed.

(** X4. [resolve] is idempotent: a path it returned resolves to itself. *)
Theorem resolve_idempotent (args : list string) (r : string) :
  resolve (map JStr args) = Ok r -> resolve [JStr r] = Ok r.
Proof.
  rewrite resolve_strings. intros H. injection H as <-.
  set (parts := segments (resolve_scan (rev args) "")).
  assert (Hp : Forall plain (collapsed parts)) by apply collapsed_plain, segments_are_segments.
  rewrite resolve1, segments_resolved by now apply plain_segment.
  now rewrite collapsed_of_plain.
Qed.

Lemma resolve_idempotent_witness : resolve [JStr "/a/c"] = Ok "/a/c".
Proof. apply (resolve_idempotent ["x"; "/a/b"; "../c/"]). vm_compute. reflexivity. Defined.

Lemma normalize_absolute_resolved (p : string) :
  isAbsolute p = true ->
  exists r, resolve [JStr p] = Ok r /\
            normalize p = (r ++ if ends_with "/" p && negb (r =? "/") then "/" else "")%string.
Proof.
  intros Ha. eexists. split; [apply resolve1|].
  rewrite normalize_assemble. unfold normalize_parts. rewrite Ha. cbn [negb].
  rewrite normalizeArray_absolute.
  assert (Hs : Forall segment (collapsed (segments p)))
    by apply plain_segment, collapsed_plain, segments_are_segments.
  destruct (collapsed (segments p)) as [|x l] eqn:E.
  - rewrite assemble_empty. simpl. now rewrite andb_false_r.
  - rewrite assemble_nonempty by (assumption || discriminate).
    rewrite append_assoc.
    inversion Hs as [|? ? [Hx _] _]; subst.
    pose proof (join_cons_not_empty x l Hx) as Hne.
    replace (("/" ++ JS.join "/" (x :: l))%string =? "/") with false.
    + now rewrite andb_true_r.
    + symmetry. apply String.eqb_neq. intros H.
      remember (JS.join "/" (x :: l)) as j. destruct j; [congruence | discriminate].
Qed.

(** X5. On an absolute path [normalize] is [resolve], plus the trailing slash
    of the input when the result is not the root. *)
Theorem normalize_absolute_is_resolve (p : string) :
  isAbsolute p = true ->
  exists r, resolve [JStr p] = Ok r /\
            normalize p = (r ++ if ends_with "/" p && negb (r =? "/") then "/" else "")%string.
Proof. apply normalize_absolute_resolved. Qed.

Lemma normalize_absolute_is_resolve_witness :
  exists r, resolve [JStr "/a/./b/../c/"] = Ok r /\
            normalize "/a/./b/../c/" = (r ++ "/")%string.
Proof.
  destruct (normalize_absolute_is_resolve "/a/./b/../c/") as (r & H1 & H2); [reflexivity|].
  exists r. split; [exact H1|].
  rewrite H2. f_equal.
  vm_compute in H1. injection H1 as <-. reflexivity.
Defined.

(** X6. [relative] returns some '..' segments followed by plain segments joined
    by '/': never an absolute path, never a trailing slash, never a '.'
    segment; and it only depends on what [from] and [to] resolve to. *)
Theorem relative_shape (from to : string) :
  (exists k tail,
     relative from to = Ok (JS.join "/" (repeat ".." k ++ tail)) /\
     Forall plain tail /\
     isAbsolute (JS.join "/" (repeat ".." k ++ tail)) = false /\
     ends_with "/" (JS.join "/" (repeat ".." k ++ tail)) = false) /\
  (forall rfrom rto,
     resolve [JStr from] = Ok rfrom -> resolve [JStr to] = Ok rto ->
     relative rfrom rto = relative from to).
Proof.
  split.
  - rewrite relative_segments.
    set (lhs := collapsed (segments from)). set (rhs := collapsed (segments to)).
    set (shared := shared_loop _ lhs rhs 0).
    exists (List.length lhs - shared), (skipn shared rhs).
    assert (Hr : Forall plain (skipn shared rhs))
      by apply Forall_skipn_of, collapsed_plain, segments_are_segments.
    assert (Hs : Forall segment (repeat ".." (List.length lhs - shared) ++ skipn shared rhs)).
    { apply Forall_app. split; [apply Forall_repeat_of, dotdot_segment | now apply plain_segment]. }
    repeat split; try assumption.
    + now apply join_not_absolute.
    + now apply join_no_trailing_slash.
  - intros rfrom rto. rewrite !resolve1. intros H1 H2. injection H1 as <-. injection H2 as <-.
    rewrite (relative_segments from to), relative_segments.
    assert (Hf : Forall plain (collapsed (segments from)))
      by apply collapsed_plain, segments_are_segments.
    assert (Ht : Forall plain (collapsed (segments to)))
      by apply collapsed_plain, segments_are_segments.
    rewrite !segments_resolved by now apply plain_segment.
    now rewrite (collapsed_of_plain _ Hf), (collapsed_of_plain _ Ht).
Qed.

Lemma relative_shape_witness : relative "/a/b" "/a/c/d" = relative "x/../a/b/" "/a/./c/d".
Proof.
  apply (proj2 (relative_shape "x/../a/b/" "/a/./c/d")); vm_compute; reflexivity.
Defined.

(** ** join composes *)

Lemma normalize_not_empty (p : string) : normalize p <> "".
Proof.
  rewrite normalize_assemble.
  pose proof (normalize_parts_segments p) as Hs.
  destruct (normalize_parts p) as [|x l] eqn:E.
  - rewrite assemble_empty. now destruct (isAbsolute p), (ends_with "/" p).
  - rewrite assemble_nonempty by (assumption || discriminate).
    inversion Hs as [|? ? [Hx _] _]; subst.
    pose proof (join_cons_not_empty x l Hx) as Hne.
    destruct (isAbsolute p); [discriminate|].
    remember (JS.join "/" (x :: l)) as j eqn:Ej.
    destruct j; [congruence | discriminate].
Qed.

Lemma normalizeArray_dot_l (parts : list string) (allow : bool) :
  normalizeArray ("." :: parts) allow = normalizeArray parts allow.
Proof.
  rewrite !normalizeArray_collapse. simpl rev. rewrite collapse_app. simpl.
  now destruct (collapse (rev parts) 0 []).
Qed.

(** Normalizing a prefix of the segments first changes nothing. *)
Lemma normalizeArray_prefix (parts more : list string) (allow : bool) :
  Forall segment parts ->
  normalizeArray (normalizeArray parts allow ++ more) allow =
  normalizeArray (parts ++ more) allow.
Proof.
  intros Hs.
  assert (Hn : Forall plain (fst (collapse (rev parts) 0 [])))
    by now apply collapsed_plain.
  rewrite (normalizeArray_collapse (_ ++ more)), (normalizeArray_collapse (parts ++ more)).
  rewrite !rev_app_distr, !collapse_app.
  rewrite (collapse_pending (rev parts)), (collapse_pending (rev (normalizeArray parts allow))).
  rewrite (normalizeArray_collapse parts).
  set (N := fst (collapse (rev parts) 0 [])) in *.
  set (u := snd (collapse (rev parts) 0 [])).
  set (k1 := fst (collapse (rev more) 0 [])).
  set (u1 := snd (collapse (rev more) 0 [])).
  destruct allow.
  - rewrite rev_app_distr, rev_repeat, collapse_app.
    rewrite (collapse_plain (rev N)) by now apply Forall_rev.
    cbn [fst snd]. rewrite rev_involutive, app_nil_r, collapse_dotdots. reflexivity.
  - simpl app. rewrite (collapse_plain (rev N)) by now apply Forall_rev.
    cbn [fst snd]. now rewrite rev_involutive, app_nil_r.
Qed.

Lemma normalize_parts_of_normalized (x c : string) :
  normalizeArray (segments (normalize x) ++ segments c) (negb (isAbsolute x)) =
  normalizeArray (segments x ++ segments c) (negb (isAbsolute x)).
Proof.
  rewrite <- (normalizeArray_prefix (segments x)) by apply segments_are_segments.
  fold (normalize_parts x). rewrite (normalize_assemble x).
  pose proof (normalize_parts_segments x) as Hs.
  destruct (normalize_parts x) as [|y l] eqn:E.
  - rewrite assemble_empty.
    destruct (isAbsolute x); [reflexivity|].
    destruct (ends_with "/" x); apply normalizeArray_dot_l.
  - destruct (assemble_observed (isAbsolute x) (ends_with "/" x) (y :: l))
      as (_ & _ & ->); [assumption | discriminate | reflexivity].
Qed.

Lemma normalize_left (x c : string) :
  x <> "" -> normalize (normalize x ++ "/" ++ c) = normalize (x ++ "/" ++ c).
Proof.
  intros Hx. rewrite (normalize_assemble (normalize x ++ _)), (normalize_assemble (x ++ _)).
  unfold normalize_parts.
  rewrite !isAbsolute_append by (assumption || apply normalize_not_empty).
  rewrite normalize_isAbsolute, !segments_app, normalize_parts_of_normalized.
  now rewrite (ends_with_app "/" (normalize x) ("/" ++ c)),
              (ends_with_app "/" x ("/" ++ c)) by discriminate.
Qed.

Lemma js_join_app (l1 l2 : list string) :
  l1 <> [] -> l2 <> [] ->
  JS.join "/" (l1 ++ l2) = (JS.join "/" l1 ++ "/" ++ JS.join "/" l2)%string.
Proof.
  intros H1 H2. induction l1 as [|x l1 IH]; [congruence|].
  destruct l1 as [|y l1].
  - destruct l2; [congruence | reflexivity].
  - change (JS.join "/" ((x :: y :: l1) ++ l2))
      with (x ++ "/" ++ JS.join "/" ((y :: l1) ++ l2))%string.
    rewrite IH by discriminate.
    change (JS.join "/" (x :: y :: l1)) with (x ++ "/" ++ JS.join "/" (y :: l1))%string.
    now rewrite !append_assoc.
Qed.

Lemma js_join_truthy_not_empty (l : list string) :
  filter truthy l <> [] -> JS.join "/" (filter truthy l) <> "".
Proof.
  intros H. destruct (filter truthy l) as [|x r] eqn:E; [congruence|].
  apply join_cons_not_empty.
  assert (Hin : In x (filter truthy l)) by (rewrite E; now left).
  apply filter_In in Hin as [_ Ht]. now apply truthy_true.
Qed.

(** X7. [join] is associative: joining the first fragments first and the rest
    to that result is joining everything at once, as soon as one of the
    first fragments is not empty. *)
Theorem join_associative (l1 l2 : list string) :
  Exists (fun s => s <> "") l1 ->
  exists j, Path.join (map JStr l1) = Ok j /\
            Path.join (map JStr (j :: l2)) = Path.join (map JStr (l1 ++ l2)).
Proof.
  intros Hex.
  assert (Hj : forall l, Path.join (map JStr l) = Ok (normalize (JS.join "/" (filter truthy l)))).
  { intros l. unfold Path.join. now rewrite join_filter_strings. }
  assert (H1 : filter truthy l1 <> []).
  { apply Exists_exists in Hex as (s & Hin & Hs). intros E.
    assert (Hin' : In s (filter truthy l1)) by (apply filter_In; split; [|apply truthy_true]; assumption).
    now rewrite E in Hin'. }
  eexists. split; [apply Hj|]. rewrite !Hj. apply (f_equal Ok).
  rewrite filter_app. cbn [filter].
  pose proof (normalize_not_empty (JS.join "/" (filter truthy l1))) as Hn.
  apply truthy_true in Hn. rewrite Hn.
  destruct (filter truthy l2) as [|y r] eqn:E2.
  - rewrite app_nil_r. apply normalize_idempotent.
  - rewrite js_join_app by (assumption || discriminate).
    change (JS.join "/" (?a :: y :: r)) with (a ++ "/" ++ JS.join "/" (y :: r))%string.
    apply normalize_left. now apply js_join_truthy_not_empty.
Qed.

Lemma join_associative_witness :
  exists j, Path.join (map JStr [""; "a/.."; "../b/"]) = Ok j /\
            Path.join (map JStr (j :: ["/c"; ""; ".."])) =
            Path.join (map JStr ([""; "a/.."; "../b/"] ++ ["/c"; ""; ".."])).
Proof.
  apply join_associative. right. left. discriminate.
Defined.

(** ** The captures of pathRegExp in detail *)

Lemma pathRegExp_tail_after_name (s : string) :
  pathRegExp_tail s = flat_map after_name (g3_name s).
Proof. reflexivity. Qed.

Lemma no_slash_app (a b : string) : no_slash (a ++ b) = no_slash a && no_slash b.
Proof. now rewrite <- !no_slash_all_chars, all_chars_app. Qed.

(** A slash-free string followed by slashes splits in one way only. *)
Lemma split_at_slashes (r1 t1 r2 t2 : string) :
  no_slash r1 = true -> all_slash t1 = true ->
  no_slash r2 = true -> all_slash t2 = true ->
  (r1 ++ t1)%string = (r2 ++ t2)%string -> r1 = r2 /\ t1 = t2.
Proof.
  revert r2. induction r1 as [|c r1 IH]; intros r2 H1 Ht1 H2 Ht2 E.
  - destruct r2 as [|d r2]; [now split|]. simpl in *.
    destruct t1 as [|x t1]; [discriminate|]. injection E as -> _.
    simpl in Ht1. apply andb_true_iff in Ht1 as [Hx _].
    apply andb_true_iff in H2 as [Hd _]. now rewrite Hx in Hd.
  - destruct r2 as [|d r2]; simpl in *.
    + destruct t2 as [|x t2]; [discriminate|]. injection E as -> _.
      simpl in Ht2. apply andb_true_iff in Ht2 as [Hx _].
      apply andb_true_iff in H1 as [Hc _]. now rewrite Hx in Hc.
    + injection E as -> E. apply andb_true_iff in H1 as [_ H1].
      apply andb_true_iff in H2 as [_ H2].
      destruct (IH r2 H1 Ht1 H2 Ht2 E) as [-> ->]. now split.
Qed.

Lemma g4_is_ext (s e r : string) : In (e, r) (g4 s) -> is_ext e = true.
Proof.
  unfold g4, Re.alt, Re.seq. intros H. apply in_app_or in H as [H | H].
  - apply in_flat_map in H as ([x1 r1] & H1 & H).
    apply in_map_iff in H as ([x2 r2] & E & H2). cbn [fst snd] in *.
    injection E as <- <-.
    destruct s as [|c s]; simpl in H1; [contradiction|].
    destruct (Re.is_dot c) eqn:Hc; [|contradiction].
    destruct H1 as [H1 | []]. injection H1 as <- <-.
    destruct (consumes_star Re.not_dot_slash Re.not_dot_slash (fun _ H => H) _ _ _ H2) as [_ A].
    simpl. now rewrite Hc, A.
  - destruct H as [H | []]. now injection H as <- <-.
Qed.

Lemma g4_has_ext (e tl : string) : is_ext e = true -> In (e, tl) (g4 (e ++ tl)%string).
Proof.
  intros H. unfold g4, Re.alt. destruct e as [|c t].
  - apply in_or_app. right. now left.
  - simpl in H. apply andb_true_iff in H as [Hc Ht].
    apply in_or_app. left. unfold Re.seq.
    apply in_flat_map. exists (String c "", (t ++ tl)%string). split.
    + simpl. rewrite Hc. now left.
    + apply in_map_iff. exists (t, tl). split; [reflexivity | now apply star_all].
Qed.

(** After a name that leaves [r] before the slashes, the pattern matches
    exactly when [r] is a possible extension, which is then group 4. *)
Lemma after_name_sound (n r tl base ext : string) :
  no_slash r = true -> all_slash tl = true ->
  In (base, ext) (after_name (n, (r ++ tl)%string)) ->
  is_ext r = true /\ base = (n ++ r)%string /\ ext = r.
Proof.
  intros Hr Ht H. unfold after_name in H. cbn [fst snd] in H.
  apply in_flat_map in H as ([e r2] & H2 & H).
  apply in_flat_map in H as ([sl r3] & H3 & H).
  apply in_map_iff in H as ([z r4] & E & H4). cbn [fst snd] in *.
  injection E as <- <-.
  pose proof (g4_is_ext _ _ _ H2) as He.
  destruct (g4_consumes _ _ _ H2) as [E2 A2].
  destruct (slashes_consumes _ _ _ H3) as [-> A3].
  destruct r3; [|contradiction]. rewrite append_nil_r in E2.
  rewrite no_slash_all_chars in A2. rewrite all_slash_all_chars in A3.
  destruct (split_at_slashes _ _ _ _ Hr Ht A2 A3 E2) as [-> _]. now repeat split.
Qed.

Lemma after_name_complete (n r tl : string) :
  is_ext r = true -> all_slash tl = true ->
  In ((n ++ r)%string, r) (after_name (n, (r ++ tl)%string)).
Proof.
  intros Hr Ht. unfold after_name. cbn [fst snd].
  apply in_flat_map. exists (r, tl). split; [now apply g4_has_ext|].
  cbn [fst snd]. apply in_flat_map. exists (tl, ""). split.
  - pose proof (star_all Re.is_slash tl "") as H.
    rewrite append_nil_r in H. apply H. now rewrite all_slash_all_chars.
  - now left.
Qed.

Lemma after_name_head (n r tl : string) :
  no_slash r = true -> all_slash tl = true ->
  hd_error (after_name (n, (r ++ tl)%string)) =
  if is_ext r then Some ((n ++ r)%string, r) else None.
Proof.
  intros Hr Ht.
  destruct (after_name (n, (r ++ tl)%string)) as [|[b e] rest] eqn:E.
  - destruct (is_ext r) eqn:Hx; [|reflexivity].
    pose proof (after_name_complete n r tl Hx Ht) as Hin. now rewrite E in Hin.
  - assert (Hin : In (b, e) (after_name (n, (r ++ tl)%string))) by (rewrite E; now left).
    apply after_name_sound in Hin as (-> & -> & ->); try assumption. reflexivity.
Qed.

Lemma after_name_head_eq (n rest r tl : string) :
  rest = (r ++ tl)%string -> no_slash r = true -> all_slash tl = true ->
  hd_error (after_name (n, rest)) = if is_ext r then Some ((n ++ r)%string, r) else None.
Proof. intros ->. apply after_name_head. Qed.

Lemma after_name_nil (n r tl : string) :
  no_slash r = true -> all_slash tl = true -> is_ext r = false ->
  after_name (n, (r ++ tl)%string) = [].
Proof.
  intros Hr Ht Hx. pose proof (after_name_head n r tl Hr Ht) as H.
  rewrite Hx in H. now destruct (after_name (n, (r ++ tl)%string)).
Qed.

Lemma from_last_dot_none (r : string) :
  all_chars Re.not_dot_slash r = true -> from_last_dot r = "".
Proof.
  induction r as [|c r IH]; simpl; [reflexivity|].
  intros H. apply andb_true_iff in H as [Hc Hr]. rewrite (IH Hr).
  unfold Re.not_dot_slash in Hc. apply andb_true_iff in Hc as [Hc _].
  apply negb_true_iff in Hc. now rewrite Hc.
Qed.

Lemma from_last_dot_none_inv (r : string) :
  no_slash r = true -> from_last_dot r = "" -> all_chars Re.not_dot_slash r = true.
Proof.
  induction r as [|c r IH]; simpl; [reflexivity|].
  intros H E. apply andb_true_iff in H as [Hc Hr].
  destruct (from_last_dot r) eqn:Er; [|discriminate].
  destruct (Re.is_dot c) eqn:Hd; [discriminate|].
  rewrite (IH Hr eq_refl), andb_true_r.
  unfold Re.not_dot_slash, Re.is_slash. now rewrite Hd, Hc.
Qed.

Lemma from_last_dot_ext (s : string) : is_ext s = true -> from_last_dot s = s.
Proof.
  destruct s as [|c r]; [reflexivity|]. simpl.
  intros H. apply andb_true_iff in H as [Hc Hr].
  now rewrite (from_last_dot_none r Hr), Hc.
Qed.

Lemma from_last_dot_skip (c : ascii) (r : string) :
  no_slash r = true -> is_ext (String c r) = false ->
  from_last_dot (String c r) = from_last_dot r.
Proof.
  intros Hr Hx. simpl. destruct (from_last_dot r) eqn:E; [|reflexivity].
  simpl in Hx. rewrite (from_last_dot_none_inv r Hr E), andb_true_r in Hx.
  now rewrite Hx.
Qed.

Lemma star_lazy_slashes (tl : string) :
  all_slash tl = true -> Re.star_lazy Re.not_slash tl = [("", tl)].
Proof.
  destruct tl as [|c tl]; simpl; [reflexivity|].
  intros H. apply andb_true_iff in H as [Hc _].
  unfold Re.not_slash, Re.is_slash. now rewrite Hc.
Qed.

Lemma chr_slashes (cls : ascii -> bool) (tl : string) :
  cls "/"%char = false -> all_slash tl = true -> Re.chr cls tl = [].
Proof.
  intros Hcls. destruct tl as [|c tl]; simpl; [reflexivity|].
  intros H. apply andb_true_iff in H as [Hc _].
  apply Ascii.eqb_eq in Hc. subst c. now rewrite Hcls.
Qed.

Lemma hd_error_app {A : Type} (l1 l2 : list A) :
  hd_error (l1 ++ l2) = match hd_error l1 with Some x => Some x | None => hd_error l2 end.
Proof. now destruct l1. Qed.

(** The lazy name [[^\/]+?] gives way to the first, that is the longest,
    extension that can follow it. *)
Lemma lazy_name_first (r pre tl : string) :
  no_slash r = true -> all_slash tl = true ->
  hd_error (flat_map after_name
              (map (fun m => ((pre ++ fst m)%string, snd m))
                   (Re.star_lazy Re.not_slash (r ++ tl)))) =
  Some ((pre ++ r)%string, from_last_dot r).
Proof.
  revert pre. induction r as [|c r IH]; intros pre Hr Ht.
  - simpl append. rewrite star_lazy_slashes by assumption. cbn [map flat_map fst snd].
    rewrite app_nil_r. rewrite (after_name_head _ "" tl) by assumption.
    simpl. now rewrite !append_nil_r.
  - pose proof Hr as Hr'. simpl in Hr'. apply andb_true_iff in Hr' as [Hc Hr'].
    simpl append. cbn [Re.star_lazy].
    replace (Re.not_slash c) with true by (unfold Re.not_slash, Re.is_slash; now rewrite Hc).
    cbn [map flat_map fst snd]. rewrite map_map, hd_error_app.
    change (String c (r ++ tl)) with (String c r ++ tl)%string.
    rewrite after_name_head by assumption.
    destruct (is_ext (String c r)) eqn:Hx.
    + now rewrite append_nil_r, from_last_dot_ext.
    + rewrite from_last_dot_skip by assumption.
      rewrite (map_ext _ (fun m => (((pre ++ String c "") ++ fst m)%string, snd m))).
      * rewrite IH by assumption. now rewrite append_assoc.
      * intros [x y]. cbn [fst snd]. now rewrite append_assoc.
Qed.

Lemma plus_lazy_first (c : ascii) (r tl : string) :
  no_slash (String c r) = true -> all_slash tl = true ->
  hd_error (flat_map after_name (Re.plus_lazy Re.not_slash (String c r ++ tl)%string)) =
  Some (String c r, from_last_dot r).
Proof.
  intros Hr Ht. pose proof Hr as Hr'. simpl in Hr'.
  apply andb_true_iff in Hr' as [Hc Hr'].
  unfold Re.plus_lazy, Re.seq. simpl append. cbn [Re.chr].
  replace (Re.not_slash c) with true by (unfold Re.not_slash, Re.is_slash; now rewrite Hc).
  cbn [flat_map fst snd]. rewrite app_nil_r.
  now rewrite (lazy_name_first r (String c "") tl).
Qed.

Lemma alt1_names (s : string) :
  Re.seq (Re.chr Re.is_dot) (Re.opt (Re.chr Re.is_dot)) s =
  match s with
  | String c s1 =>
      if Re.is_dot c then
        match s1 with
        | String d s2 =>
            if Re.is_dot d
            then [(String c (String d ""), s2); (String c "", s1)]
            else [(String c "", s1)]
        | EmptyString => [(String c "", s1)]
        end
      else []
  | EmptyString => []
  end.
Proof.
  unfold Re.seq, Re.opt, Re.alt, Re.eps.
  destruct s as [|c s1]; [reflexivity|]. cbn [Re.chr].
  destruct (Re.is_dot c); [|reflexivity].
  cbn [flat_map fst snd]. rewrite app_nil_r.
  destruct s1 as [|d s2]; [reflexivity|]. cbn [Re.chr].
  destruct (Re.is_dot d); reflexivity.
Qed.

Lemma is_dot_eq (c : ascii) : Re.is_dot c = true -> c = "."%char.
Proof. apply Ascii.eqb_eq. Qed.

(** The first way to match the end of the pattern: group 3 is the whole
    final segment and group 4 its extension. *)
Lemma pathRegExp_tail_head (b tl : string) :
  no_slash b = true -> all_slash tl = true ->
  hd_error (pathRegExp_tail (b ++ tl)) = Some (b, extension b).
Proof.
  intros Hb Ht. rewrite pathRegExp_tail_after_name. unfold g3_name, Re.alt.
  rewrite !flat_map_app, !hd_error_app, alt1_names.
  destruct b as [|c b].
  - simpl append.
    assert (E1 : match tl with
                 | String c s1 =>
                     if Re.is_dot c then
                       match s1 with
                       | String d s2 =>
                           if Re.is_dot d
                           then [(String c (String d ""), s2); (String c "", s1)]
                           else [(String c "", s1)]
                       | EmptyString => [(String c "", s1)]
                       end
                     else []
                 | EmptyString => []
                 end = []).
    { destruct tl as [|x tl']; [reflexivity|]. simpl in Ht.
      apply andb_true_iff in Ht as [Hx _]. apply Ascii.eqb_eq in Hx. now subst x. }
    rewrite E1. unfold Re.plus_lazy, Re.seq.
    rewrite (chr_slashes Re.not_slash tl) by (reflexivity || assumption).
    cbn [flat_map hd_error Re.eps]. rewrite app_nil_r.
    now rewrite (after_name_head_eq "" tl "" tl eq_refl).
  - rewrite plus_lazy_first by assumption.
    pose proof Hb as Hb'. simpl in Hb'. apply andb_true_iff in Hb' as [Hc Hb'].
    simpl append. unfold extension. cbn [drop].
    destruct (Re.is_dot c) eqn:Hd.
    + apply is_dot_eq in Hd. subst c.
      destruct b as [|d b2].
      * simpl append. destruct tl as [|x tl'].
        -- reflexivity.
        -- simpl in Ht. apply andb_true_iff in Ht as [Hx Ht'].
           apply Ascii.eqb_eq in Hx. subst x.
           change (Re.is_dot "/") with false. cbv iota.
           cbn [flat_map fst snd]. rewrite app_nil_r.
           rewrite (after_name_head_eq "." (String "/" tl') "" (String "/" tl') eq_refl)
             by (reflexivity || (simpl; now rewrite Ht')).
           reflexivity.
      * simpl append. pose proof Hb' as Hb2. simpl in Hb2.
        apply andb_true_iff in Hb2 as [Hdn Hb2].
        destruct (Re.is_dot d) eqn:Hd2.
        -- apply is_dot_eq in Hd2. subst d.
           cbn [flat_map fst snd]. rewrite app_nil_r, hd_error_app.
           rewrite (after_name_head_eq ".." (b2 ++ tl)%string b2 tl eq_refl) by assumption.
           destruct (is_ext b2) eqn:Hx.
           ++ destruct b2 as [|e t]; [reflexivity|].
              replace ("." ++ "." ++ String e t =? "..")%string with false by reflexivity.
              f_equal. f_equal.
              change (from_last_dot (String "." (String e t)))
                with (match from_last_dot (String e t) with
                      | "" => String "." (String e t)
                      | e' => e'
                      end).
              rewrite (from_last_dot_ext _ Hx). reflexivity.
           ++ rewrite (after_name_head_eq "." (String "." (b2 ++ tl)) (String "." b2) tl eq_refl) by assumption.
              destruct (is_ext (String "." b2)) eqn:Hx2.
              ** destruct b2 as [|e t]; [discriminate|].
                 replace (String "." (String "." (String e t)) =? "..") with false by reflexivity.
                 now rewrite from_last_dot_ext.
              ** destruct b2 as [|e t]; [discriminate | reflexivity].
        -- cbn [flat_map fst snd]. rewrite app_nil_r.
           rewrite (after_name_head_eq "." (String d (b2 ++ tl)) (String d b2) tl eq_refl) by assumption.
           assert (Hx : is_ext (String d b2) = false) by (simpl; now rewrite Hd2).
           rewrite Hx.
           replace (String "." (String d b2) =? "..") with false; [reflexivity|].
           symmetry. apply String.eqb_neq. intros E. injection E as -> _. discriminate.
    + cbn [flat_map hd_error].
      replace (String c b =? "..") with false; [reflexivity|].
      symmetry. apply String.eqb_neq. intros E. injection E as -> _. discriminate.
Qed.

Lemma matches_from_head (root s pre : string) :
  exists dir b tl,
    hd_error (matches_from root pre s) =
      Some [root; (pre ++ dir)%string; b; extension b] /\
    s = (dir ++ b ++ tl)%string /\ no_slash b = true /\ all_slash tl = true /\
    (dir = "" \/ (ends_with "/" dir = true /\ b <> "")).
Proof.
  revert pre. induction s as [|c s IH]; intros pre; rewrite matches_from_unfold.
  - exists "", "", "". rewrite append_nil_r.
    pose proof (pathRegExp_tail_head "" "" eq_refl eq_refl) as H. simpl append in H.
    destruct (pathRegExp_tail "") as [|m rest]; [discriminate|].
    injection H as ->. repeat split. now left.
  - destruct (pathRegExp_tail (String c s)) as [|[base ext] rest] eqn:E.
    + cbn [map app].
      destruct (IH (pre ++ String c "")%string)
        as (dir & b & tl & Hh & Hs & Hn & Ht & Hd).
      exists (String c dir), b, tl.
      rewrite append_assoc in Hh. repeat split; try assumption.
      * simpl. now rewrite Hs.
      * right. destruct Hd as [-> | [Hd Hb]].
        -- simpl in Hs. subst s.
           assert (Hc : Ascii.eqb c "/" = true).
           { destruct (Ascii.eqb c "/") eqn:Hc; [reflexivity|]. exfalso.
             apply (pathRegExp_tail_complete (String c b) tl); try assumption.
             simpl. now rewrite Hc. }
           split; [exact Hc|]. intros ->.
           apply (pathRegExp_tail_complete "" (String c tl)); try reflexivity; try assumption.
           simpl. now rewrite Hc.
        -- split; [|assumption]. simpl. destruct dir; [discriminate | exact Hd].
    + assert (Hin : In (base, ext) (pathRegExp_tail (String c s))) by (rewrite E; now left).
      apply pathRegExp_tail_sound in Hin as (nm & tl & Hs & Hb & Hn & Ht).
      pose proof (pathRegExp_tail_head base tl Hn Ht) as H.
      rewrite <- Hs, E in H. injection H as ->.
      exists "", base, tl. rewrite append_nil_r. cbn [map app hd_error fst snd].
      repeat split; try assumption. now left.
Qed.

(** The captures of [parse] in full: the leading slash if there is one; the
    text up to the slash before the last non-empty segment; that segment;
    its extension. *)
Lemma parse_head (p : string) :
  exists dir b tl,
    let root := if isAbsolute p then "/" else "" in
    parse p = Ok [root; dir; b; extension b] /\
    p = (root ++ dir ++ b ++ tl)%string /\
    no_slash b = true /\ all_slash tl = true /\
    (dir = "" \/ (ends_with "/" dir = true /\ b <> "")).
Proof.
  assert (Hp : forall groups, hd_error (pathRegExp_matches p) = Some groups ->
                              parse p = Ok groups).
  { intros groups H. unfold parse, pathRegExp_exec.
    destruct (pathRegExp_matches p) as [|g rest]; [discriminate|].
    injection H as ->. change 1%Z with (Z.of_nat 1).
    now rewrite aslice_skipn by (simpl; lia). }
  rewrite pathRegExp_matches_g1 in Hp.
  destruct p as [|c p].
  - destruct (matches_from_head "" "" "") as (dir & b & tl & Hh & Hs & Hn & Ht & Hd).
    exists dir, b, tl. cbn zeta. cbn [isAbsolute charAt0_is].
    repeat split; try assumption.
    apply Hp. cbn [app]. now apply hd_error_app_some.
  - unfold isAbsolute. cbn [charAt0_is]. fold (Re.is_slash c) in *.
    destruct (Re.is_slash c) eqn:Hc.
    + destruct (matches_from_head "/" p "") as (dir & b & tl & Hh & Hs & Hn & Ht & Hd).
      exists dir, b, tl. cbn zeta.
      repeat split; try assumption.
      * apply Hp. now apply hd_error_app_some.
      * apply Ascii.eqb_eq in Hc. subst c. simpl. now rewrite Hs.
    + destruct (matches_from_head "" (String c p) "") as (dir & b & tl & Hh & Hs & Hn & Ht & Hd).
      exists dir, b, tl. cbn zeta.
      repeat split; try assumption.
      apply Hp. cbn [app]. now apply hd_error_app_some.
Qed.

(** ** dirname, basename and extname in closed form *)

Lemma from_last_dot_suffix (s : string) : exists nm, s = (nm ++ from_last_dot s)%string.
Proof.
  induction s as [|c r [nm IH]]; [now exists ""|]. simpl.
  destruct (from_last_dot r) eqn:E.
  - destruct (Re.is_dot c); [now exists "" | exists (String c r); now rewrite append_nil_r].
  - exists (String c nm). simpl. now rewrite <- IH.
Qed.

Lemma from_last_dot_is_ext (s : string) :
  no_slash s = true -> is_ext (from_last_dot s) = true.
Proof.
  induction s as [|c r IH]; [reflexivity|]. simpl.
  intros H. apply andb_true_iff in H as [Hc Hr].
  destruct (from_last_dot r) eqn:E; [|now apply IH].
  destruct (Re.is_dot c) eqn:Hd; [|reflexivity].
  simpl. rewrite Hd. now apply from_last_dot_none_inv.
Qed.

Lemma no_slash_drop (n : nat) (s : string) : no_slash s = true -> no_slash (drop n s) = true.
Proof.
  revert s. induction n as [|n IH]; intros [|c s] H; try assumption.
  simpl. apply IH. simpl in H. now apply andb_true_iff in H.
Qed.

Lemma drop_suffix (n : nat) (s : string) : exists a, s = (a ++ drop n s)%string.
Proof.
  revert s. induction n as [|n IH]; intros s.
  - exists "". now destruct s.
  - destruct s as [|c s]; [now exists ""|].
    destruct (IH s) as [a Ha]. exists (String c a). simpl. now rewrite <- Ha.
Qed.

(** X8. [extname] returns the extension of [basename]: nothing when the
    basename is '..' or has no '.' after its first character, else the part
    of the basename from its last '.'.  So it is empty or a '.' followed by
    characters other than '.' and '/', and always a suffix of the
    basename. *)
Theorem extname_last_dot (p : string) :
  exists base,
    basename p None = Ok base /\
    extname p = Ok (extension base) /\
    is_ext (extension base) = true /\
    exists nm, base = (nm ++ extension base)%string.
Proof.
  destruct (parse_head p) as (dir & b & tl & Hparse & _ & Hn & _).
  cbv zeta in Hparse. exists b.
  unfold basename, extname. rewrite Hparse. cbn [bind nth].
  repeat split.
  - unfold extension. destruct (b =? ".."); [reflexivity|].
    now apply from_last_dot_is_ext, no_slash_drop.
  - unfold extension. destruct (b =? "..").
    + exists b. now rewrite append_nil_r.
    + destruct (drop_suffix 1 b) as [a Ha].
      destruct (from_last_dot_suffix (drop 1 b)) as [nm Hnm].
      exists (a ++ nm)%string. now rewrite append_assoc, <- Hnm.
Qed.

Lemma dirname_basename_last (p : string) :
  exists d b,
    dirname p = Ok d /\ basename p None = Ok b /\
    (b = "" -> segments p = []) /\
    (b <> "" -> segments p = removelast (segments p) ++ [b]) /\
    (segments d = removelast (segments p) \/ (d = "." /\ removelast (segments p) = [])) /\
    isAbsolute d = isAbsolute p.
Proof.
  destruct (parse_head p) as (dir & b & tl & Hparse & Hp & Hn & Ht & Hd).
  cbv zeta in Hparse, Hp.
  destruct (dirname_basename_segments p) as (d & b' & Hdn & Hbn & _ & Hs).
  assert (b' = b) as ->.
  { unfold basename in Hbn. rewrite Hparse in Hbn. cbn [bind nth] in Hbn. congruence. }
  exists d, b. split; [assumption|]. split; [assumption|].
  assert (Hempty : b = "" -> segments p = []).
  { intros ->. destruct Hd as [-> | [_ Hb]]; [|congruence].
    rewrite Hp. simpl append.
    destruct (isAbsolute p); simpl append; rewrite ?segments_slash_l;
      now apply segments_all_slash. }
  assert (Hsb : b <> "" -> segments b = [b]).
  { intros Hb. apply segments_segment. now split. }
  split; [exact Hempty|]. split; [|split].
  - intros Hb. destruct Hs as [Hs | [_ Hs]]; rewrite Hs, (Hsb Hb).
    + now rewrite removelast_last.
    + reflexivity.
  - destruct (String.eqb_spec b "") as [-> | Hb].
    + rewrite (Hempty eq_refl) in *. simpl removelast.
      destruct Hs as [Hs | [-> _]]; [left | right; now split].
      symmetry in Hs. now apply app_eq_nil in Hs as [Hs _].
    + destruct Hs as [Hs | [-> Hs]]; rewrite Hs, (Hsb Hb).
      * left. now rewrite removelast_last.
      * right. now split.
  - unfold dirname in Hdn. rewrite Hparse in Hdn. cbn [bind nth] in Hdn.
    destruct (isAbsolute p) eqn:Ha.
    + cbn [truthy String.eqb negb andb] in Hdn. now injection Hdn as <-.
    + cbn [truthy String.eqb negb andb] in Hdn. simpl append in Hdn, Hp.
      destruct (truthy dir) eqn:Htd; cbn [negb] in Hdn.
      * injection Hdn as <-.
        destruct Hd as [-> | [Hd _]]; [discriminate|].
        apply ends_with_inv in Hd as [d0 ->]. rewrite slice_init.
        destruct d0 as [|x d0]; [reflexivity|].
        rewrite Hp in Ha. simpl in Ha. exact Ha.
      * now injection Hdn as <-.
Qed.

Lemma length_drop (n : nat) (s : string) :
  String.length (drop n s) = String.length s - n.
Proof.
  revert s. induction n as [|n IH]; intros [|c s]; simpl; try reflexivity; try lia.
  apply IH.
Qed.

(** [f.slice(-n)] is a suffix of [f]. *)
Lemma slice_neg_suffix (f : string) (n : nat) :
  exists a, f = (a ++ slice f (- Z.of_nat n) None)%string.
Proof.
  unfold slice, clamp.
  destruct (Z.ltb_spec (- Z.of_nat n) 0).
  - rewrite take_all.
    + apply drop_suffix.
    + rewrite length_drop. lia.
  - exists "". rewrite Z.min_l by lia. simpl.
    replace (- Z.of_nat n)%Z with 0%Z by lia. simpl drop.
    rewrite take_all; [reflexivity | lia].
Qed.

Lemma slice_suffix (a e : string) :
  e <> "" -> slice (a ++ e) (- Z.of_nat (String.length e)) None = e.
Proof.
  intros He. assert (0 < String.length e) by (destruct e; simpl; [congruence | lia]).
  unfold slice, clamp. rewrite length_append.
  destruct (Z.ltb_spec (- Z.of_nat (String.length e)) 0); [|lia].
  rewrite Z.max_l by lia.
  replace (Z.to_nat (Z.of_nat (String.length a + String.length e) + - Z.of_nat (String.length e)))
    with (String.length a) by lia.
  rewrite drop_append. apply take_all. lia.
Qed.

Lemma slice_prefix (a e : string) :
  e <> "" -> slice (a ++ e) 0 (Some (- Z.of_nat (String.length e))%Z) = a.
Proof.
  intros He. assert (0 < String.length e) by (destruct e; simpl; [congruence | lia]).
  unfold slice, clamp. rewrite length_append.
  destruct (Z.ltb_spec (- Z.of_nat (String.length e)) 0); [|lia].
  replace (0 <? 0)%Z with false by reflexivity.
  rewrite Z.max_l by lia. rewrite Z.min_l by lia. simpl drop.
  replace (Z.to_nat (Z.of_nat (String.length a + String.length e) +
                     - Z.of_nat (String.length e) - 0))
    with (String.length a) by lia.
  apply take_append.
Qed.

(** X10. [basename(p, ext)] removes [ext] from the end of [basename(p)] when it
    is a non-empty suffix of it (even the whole of it), and otherwise
    returns [basename(p)] unchanged. *)
Theorem basename_strips_ext (p ext b : string) :
  basename p None = Ok b ->
  (forall a, ext <> "" -> b = (a ++ ext)%string -> basename p (Some ext) = Ok a) /\
  ((ext = "" \/ forall a, b <> (a ++ ext)%string) -> basename p (Some ext) = Ok b).
Proof.
  destruct (parse_shape p) as (dir & base & e & nm & tl & Hparse & _).
  cbv zeta in Hparse. unfold basename. rewrite Hparse. cbn [bind nth].
  intros H. injection H as ->. split.
  - intros a He ->. apply truthy_true in He as Ht. rewrite Ht.
    rewrite slice_suffix, String.eqb_refl by assumption. cbn [andb].
    now rewrite slice_prefix.
  - intros [-> | Hno]; [reflexivity|].
    destruct (truthy ext); [|reflexivity]. cbn [andb].
    destruct (String.eqb_spec (slice b (- Z.of_nat (String.length ext)) None) ext) as [E|];
      [|reflexivity].
    destruct (slice_neg_suffix b (String.length ext)) as [a Ha].
    rewrite E in Ha. now apply Hno in Ha.
Qed.

Lemma basename_strips_ext_witness :
  basename "/a/b/c.txt" (Some ".txt") = Ok "c" /\
  basename "/a/b/c.txt" (Some ".md") = Ok "c.txt" /\
  basename "/a/b/c.txt" (Some "c.txt") = Ok "".
Proof.
  destruct (basename_strips_ext "/a/b/c.txt" ".txt" "c.txt" eq_refl) as [H1 _].
  destruct (basename_strips_ext "/a/b/c.txt" ".md" "c.txt" eq_refl) as [_ H2].
  destruct (basename_strips_ext "/a/b/c.txt" "c.txt" "c.txt" eq_refl) as [H3 _].
  split; [|split].
  - apply H1; [discriminate | reflexivity].
  - apply H2. right. intros a E.
    apply (f_equal (fun s => slice s (- Z.of_nat (String.length ".md")) None)) in E.
    rewrite (slice_suffix a ".md") in E by discriminate. vm_compute in E. discriminate.
  - apply (H3 ""); [discriminate | reflexivity].
Defined.

(** X17. Unlike [resolve], [join] does not restart at an absolute fragment:
    its result is absolute exactly when the first non-empty fragment is. *)
Theorem join_absolute_from_first (args : list string) :
  exists j,
    Path.join (map JStr args) = Ok j /\
    isAbsolute j = match filter truthy args with
                   | [] => false
                   | x :: _ => isAbsolute x
                   end.
Proof.
  eexists. split.
  - unfold Path.join. rewrite join_filter_strings. reflexivity.
  - rewrite normalize_isAbsolute.
    destruct (filter truthy args) as [|x r] eqn:E; [reflexivity|].
    assert (Hx : x <> "").
    { assert (Hin : In x (filter truthy args)) by (rewrite E; now left).
      apply filter_In in Hin as [_ Ht]. now apply truthy_true. }
    destruct r as [|y r]; [reflexivity|].
    change (JS.join "/" (x :: y :: r)) with (x ++ "/" ++ JS.join "/" (y :: r))%string.
    now apply isAbsolute_append.
Qed.

(** X18. For string arguments [resolve] returns a canonical absolute path:
    '/' followed by plain segments (none empty, none '.' or '..') joined by
    single slashes, each of them a segment of some argument. *)
Theorem resolve_canonical (args : list string) :
  exists parts,
    resolve (map JStr args) = Ok ("/" ++ JS.join "/" parts)%string /\
    Forall plain parts /\
    segments ("/" ++ JS.join "/" parts) = parts /\
    (forall x, In x parts -> exists a, In a args /\ In x (segments a)).
Proof.
  exists (collapsed (segments (resolve_scan (rev args) ""))).
  assert (Hp : Forall plain (collapsed (segments (resolve_scan (rev args) ""))))
    by apply collapsed_plain, segments_are_segments.
  split; [apply resolve_strings|]. split; [exact Hp|]. split.
  - apply segments_resolved. now apply plain_segment.
  - intros x Hx. apply collapsed_incl in Hx.
    assert (G : forall r acc, In x (segments (resolve_scan r acc)) ->
                              (exists a, In a r /\ In x (segments a)) \/ In x (segments acc)).
    { clear. induction r as [|p r IH]; intros acc H.
      - right. change (resolve_scan [] acc) with (String "/" (String "/" acc)) in H.
        now rewrite !segments_slash_l in H.
      - cbn [resolve_scan] in H. destruct (negb (truthy p)).
        + apply IH in H as [(a & Ha & Hx) | H]; [left | now right].
          exists a. split; [now right | assumption].
        + destruct (isAbsolute p).
          * rewrite segments_app in H. apply in_app_or in H as [H | H]; [left | now right].
            exists p. split; [now left | assumption].
          * apply IH in H as [(a & Ha & Hx) | H].
            -- left. exists a. split; [now right | assumption].
            -- rewrite segments_app in H. apply in_app_or in H as [H | H]; [left | now right].
               exists p. split; [now left | assumption]. }
    apply G in Hx as [(a & Ha & Hx) | []].
    exists a. split; [now apply in_rev | assumption].
Qed.

(** * The url ponyfill *)

Lemma replace_all_app (c : ascii) (by_ a b : string) :
  Url.replace_all c by_ (a ++ b) =
  (Url.replace_all c by_ a ++ Url.replace_all c by_ b)%string.
Proof.
  induction a as [|x a IH]; simpl; [reflexivity|].
  rewrite IH. destruct (Ascii.eqb x c); [now rewrite append_assoc | reflexivity].
Qed.

Lemma encodePathChars_cons (c : ascii) (s : string) :
  Url.encodePathChars (String c s) = (escape c ++ Url.encodePathChars s)%string.
Proof.
  unfold Url.encodePathChars, escape.
  cbn [Url.replace_all].
  destruct (Ascii.eqb_spec c Url.percent) as [-> | H1].
  { now rewrite !replace_all_app. }
  cbn [Url.replace_all].
  destruct (Ascii.eqb_spec c Url.backslash) as [-> | H2].
  { now rewrite !replace_all_app. }
  cbn [Url.replace_all].
  destruct (Ascii.eqb_spec c Url.newline) as [-> | H3].
  { now rewrite !replace_all_app. }
  cbn [Url.replace_all].
  destruct (Ascii.eqb_spec c Url.carriage_return) as [-> | H4].
  { now rewrite !replace_all_app. }
  cbn [Url.replace_all].
  destruct (Ascii.eqb_spec c Url.tab) as [-> | H5]; reflexivity.
Qed.

Lemma encodePathChars_app (a b : string) :
  Url.encodePathChars (a ++ b) = (Url.encodePathChars a ++ Url.encodePathChars b)%string.
Proof.
  induction a as [|c a IH]; [reflexivity|].
  simpl append. now rewrite !encodePathChars_cons, IH, append_assoc.
Qed.

Lemma unescape_escape (c : ascii) (s : string) :
  unescape (escape c ++ s) = String c (unescape s).
Proof.
  unfold escape.
  destruct (Ascii.eqb_spec c Url.percent) as [-> | H1]; [reflexivity|].
  destruct (Ascii.eqb_spec c Url.backslash) as [-> | H2]; [reflexivity|].
  destruct (Ascii.eqb_spec c Url.newline) as [-> | H3]; [reflexivity|].
  destruct (Ascii.eqb_spec c Url.carriage_return) as [-> | H4]; [reflexivity|].
  destruct (Ascii.eqb_spec c Url.tab) as [-> | H5]; [reflexivity|].
  simpl append. cbn [unescape].
  destruct s as [|a [|b s]]; try reflexivity.
  apply Ascii.eqb_neq in H1. now rewrite H1.
Qed.

Lemma no_raw_app (a b : string) : no_raw (a ++ b) = no_raw a && no_raw b.
Proof.
  induction a as [|x a IH]; simpl; [reflexivity|].
  now rewrite IH, !andb_assoc.
Qed.

Lemma no_raw_escape (c : ascii) : no_raw (escape c) = true.
Proof.
  unfold escape.
  destruct (Ascii.eqb_spec c Url.percent) as [-> | H1]; [reflexivity|].
  destruct (Ascii.eqb_spec c Url.backslash) as [-> | H2]; [reflexivity|].
  destruct (Ascii.eqb_spec c Url.newline) as [-> | H3]; [reflexivity|].
  destruct (Ascii.eqb_spec c Url.carriage_return) as [-> | H4]; [reflexivity|].
  destruct (Ascii.eqb_spec c Url.tab) as [-> | H5]; [reflexivity|].
  simpl. apply Ascii.eqb_neq in H2, H3, H4, H5. now rewrite H2, H3, H4, H5.
Qed.

(** X11. [encodePathChars] works character by character; its result has no
    backslash, newline, carriage return or tab left; and a string with none
    of these and no '%' is returned unchanged. *)
Theorem encodePathChars_escapes :
  (forall a b, Url.encodePathChars (a ++ b) =
               (Url.encodePathChars a ++ Url.encodePathChars b)%string) /\
  (forall s, no_raw (Url.encodePathChars s) = true) /\
  (forall s, no_raw s = true -> all_chars (fun c => negb (Ascii.eqb c Url.percent)) s = true ->
             Url.encodePathChars s = s).
Proof.
  split; [exact encodePathChars_app|]. split.
  - induction s as [|c s IH]; [reflexivity|].
    now rewrite encodePathChars_cons, no_raw_app, no_raw_escape, IH.
  - induction s as [|c s IH]; [reflexivity|].
    simpl. intros H1 H2. rewrite encodePathChars_cons.
    apply andb_true_iff in H2 as [Hp H2].
    repeat (apply andb_true_iff in H1 as [H1 ?]).
    rewrite IH by assumption. unfold escape.
    apply negb_true_iff in Hp, H1, H0, H3, H4. now rewrite Hp, H1, H3, H4, H0.
Qed.

Lemma encodePathChars_escapes_witness : Url.encodePathChars "/a b/c.txt" = "/a b/c.txt".
Proof.
  apply (proj2 (proj2 encodePathChars_escapes)); reflexivity.
Defined.

(** X12. [encodePathChars] loses nothing: reading the five escapes back gives
    the input, so different paths have different encodings. *)
Theorem encodePathChars_lossless :
  (forall s, unescape (Url.encodePathChars s) = s) /\
  (forall a b, Url.encodePathChars a = Url.encodePathChars b -> a = b).
Proof.
  assert (H : forall s, unescape (Url.encodePathChars s) = s).
  { induction s as [|c s IH]; [reflexivity|].
    now rewrite encodePathChars_cons, unescape_escape, IH. }
  split; [exact H|].
  intros a b E. rewrite <- (H a), <- (H b). now rewrite E.
Qed.

Lemma encodePathChars_lossless_witness :
  Url.encodePathChars "a%b" = Url.encodePathChars "a%b" /\ "a%b" = "a%b".
Proof.
  split; [reflexivity|].
  apply (proj2 encodePathChars_lossless "a%b" "a%b"). reflexivity.
Defined.

Lemma last_index_ends_with (s : string) :
  Url.strict_eq (Url.last_index s) "/" = ends_with "/" s.
Proof.
  induction s as [|c s IH]; [reflexivity|].
  destruct s as [|d s]; [|exact IH].
  simpl. now destruct (Ascii.eqb c "/").
Qed.

Lemma escape_not_empty (c : ascii) : escape c <> "".
Proof.
  unfold escape.
  repeat match goal with |- context [if ?b then _ else _] => destruct b end; discriminate.
Qed.

Lemma ends_with_escape (c : ascii) : ends_with "/" (escape c) = Ascii.eqb c "/".
Proof.
  unfold escape.
  destruct (Ascii.eqb_spec c Url.percent) as [-> | H1]; [reflexivity|].
  destruct (Ascii.eqb_spec c Url.backslash) as [-> | H2]; [reflexivity|].
  destruct (Ascii.eqb_spec c Url.newline) as [-> | H3]; [reflexivity|].
  destruct (Ascii.eqb_spec c Url.carriage_return) as [-> | H4]; [reflexivity|].
  destruct (Ascii.eqb_spec c Url.tab) as [-> | H5]; reflexivity.
Qed.

Lemma encodePathChars_ends_with (s : string) :
  ends_with "/" (Url.encodePathChars s) = ends_with "/" s.
Proof.
  induction s as [|c s IH]; [reflexivity|].
  rewrite encodePathChars_cons.
  destruct s as [|d s].
  - change (Url.encodePathChars "") with "". rewrite append_nil_r.
    rewrite ends_with_escape. reflexivity.
  - rewrite ends_with_app.
    + rewrite IH. reflexivity.
    + rewrite encodePathChars_cons. intros E.
      pose proof (escape_not_empty d) as Hd. destruct (escape d); [congruence | discriminate].
Qed.

Lemma resolved_ends_with (l : list string) :
  Forall segment l ->
  ends_with "/" (String "/" (JS.join "/" l)) = (String "/" (JS.join "/" l) =? "/").
Proof.
  intros Hs. destruct l as [|x l]; [reflexivity|].
  inversion Hs as [|? ? [Hx _] _]; subst.
  pose proof (join_cons_not_empty x l Hx) as Hne.
  change (String "/" (JS.join "/" (x :: l))) with ("/" ++ JS.join "/" (x :: l))%string.
  rewrite ends_with_app, join_no_trailing_slash by assumption.
  symmetry. apply String.eqb_neq.
  remember (JS.join "/" (x :: l)) as j eqn:Ej.
  destruct j; [congruence | discriminate].
Qed.

(** X13. The path [pathToFileURL] assigns to [outURL.pathname]: the escaped
    [resolve(filepath)], with a '/' appended when [filepath] ends with '/'
    and the resolved path is not the root.  It is absolute, keeps the
    trailing slash of [filepath], and for an absolute [filepath] it is the
    escaped [normalize(filepath)]. *)
Theorem pathToFileURL_pathname_spec (filepath : string) :
  exists r,
    resolve [JStr filepath] = Ok r /\
    Url.pathToFileURL_pathname filepath =
      Ok (Url.encodePathChars
            (r ++ if ends_with "/" filepath && negb (r =? "/") then "/" else "")) /\
    (exists u, Url.pathToFileURL_pathname filepath = Ok u /\ isAbsolute u = true /\
               (ends_with "/" filepath = true -> ends_with "/" u = true)) /\
    (isAbsolute filepath = true ->
     Url.pathToFileURL_pathname filepath = Ok (Url.encodePathChars (normalize filepath))).
Proof.
  assert (Hs : Forall segment (collapsed (segments filepath)))
    by apply plain_segment, collapsed_plain, segments_are_segments.
  set (r := String "/" (JS.join "/" (collapsed (segments filepath)))).
  assert (Hr : resolve [JStr filepath] = Ok r) by apply resolve1.
  assert (E : Url.pathToFileURL_pathname filepath =
              Ok (Url.encodePathChars
                    (r ++ if ends_with "/" filepath && negb (r =? "/") then "/" else ""))).
  { unfold Url.pathToFileURL_pathname. rewrite Hr. cbn [bind].
    rewrite !last_index_ends_with. unfold Path.sep, r.
    rewrite resolved_ends_with by assumption. fold r.
    destruct (ends_with "/" filepath && negb (r =? "/")); [reflexivity|].
    now rewrite append_nil_r. }
  exists r. split; [exact Hr|]. split; [exact E|]. split.
  - eexists. split; [exact E|]. split.
    + unfold r. simpl append. now rewrite encodePathChars_cons.
    + intros Ht. rewrite encodePathChars_ends_with, Ht. cbn [andb].
      destruct (r =? "/") eqn:Er.
      * apply String.eqb_eq in Er. now rewrite Er.
      * cbn [negb]. apply ends_with_snoc.
  - intros Ha. rewrite E.
    destruct (normalize_absolute_resolved filepath Ha) as (r' & Hr' & ->).
    rewrite Hr in Hr'. now injection Hr' as <-.
Qed.

Lemma pathToFileURL_pathname_witness :
  Url.pathToFileURL_pathname "/a%/./b/" = Ok "/a%25/b/".
Proof.
  destruct (pathToFileURL_pathname_spec "/a%/./b/") as (r & _ & _ & _ & H).
  rewrite H; reflexivity.
Defined.



(** * The fs/promises ponyfill *)

Lemma pop_nil {A : Type} : Promises.pop (@nil A) = (None, []).
Proof. reflexivity. Qed.

Lemma pop_snoc {A : Type} (l : list A) (x : A) : Promises.pop (l ++ [x]) = (Some x, l).
Proof. unfold Promises.pop. now rewrite rev_unit, rev_involutive. Qed.

Lemma pop_segments (p : string) :
  exists b, basename p None = Ok b /\
            Promises.pop (segments p) =
            (if b =? "" then None else Some b, removelast (segments p)).
Proof.
  destruct (dirname_basename_last p) as (d & b & _ & Hb & He & Hne & _).
  exists b. split; [assumption|].
  destruct (String.eqb_spec b "") as [E | E].
  - now rewrite (He E).
  - rewrite (Hne E) at 1. apply pop_snoc.
Qed.

Section PlatformProperties.

Variables store handle : Type.
Variables TYPE_MISMATCH_ERR NOT_FOUND_ERR : nat.
Variable storage_getDirectory : store -> (Promises.exn + handle) * store.
Variable handle_getDirectoryHandle :
  handle -> option string -> bool -> store -> (Promises.exn + handle) * store.
Variable handle_removeEntry :
  handle -> option string -> bool -> store -> (Promises.exn + unit) * store.

(** X14. [getParent] walks to the directory of all segments but the last and
    returns it with the last segment, which is [basename(path)]
    ([undefined] when the path has no segment). *)
Theorem getParent_filename_is_basename (type path : string) (create : bool) (st : store) :
  exists b,
    basename path None = Ok b /\
    Promises.getParent store handle TYPE_MISMATCH_ERR NOT_FOUND_ERR
      storage_getDirectory handle_getDirectoryHandle type path create st =
    (let '(r, st') :=
       Promises.getDirectoryHandle store handle TYPE_MISMATCH_ERR NOT_FOUND_ERR
         storage_getDirectory handle_getDirectoryHandle
         type path (removelast (segments path)) create st in
     match r with
     | inl e => (inl e, st')
     | inr root => (inr (root, if b =? "" then None else Some b), st')
     end).
Proof.
  destruct (pop_segments path) as (b & Hb & Hp).
  exists b. split; [assumption|].
  unfold Promises.getParent. fold (segments path). now rewrite Hp.
Qed.

Lemma dict_get_not_found :
  Promises.dict_get (Promises.directory_dict TYPE_MISMATCH_ERR NOT_FOUND_ERR) NOT_FOUND_ERR =
  Some Promises.ENOENT.
Proof. simpl. now rewrite Nat.eqb_refl. Qed.

Lemma dict_get_type_mismatch :
  TYPE_MISMATCH_ERR <> NOT_FOUND_ERR ->
  Promises.dict_get (Promises.directory_dict TYPE_MISMATCH_ERR NOT_FOUND_ERR) TYPE_MISMATCH_ERR =
  Some Promises.ENOTDIR.
Proof.
  intros H. simpl. apply Nat.eqb_neq in H. rewrite Nat.eqb_sym in H.
  now rewrite H, Nat.eqb_refl.
Qed.

Lemma syscall_DOMException {T : Type} (type path : string) (r : Promises.exn + T) (c : nat) :
  Promises.syscall type path r (Promises.directory_dict TYPE_MISMATCH_ERR NOT_FOUND_ERR) =
    inl (Promises.DOMException c) ->
  c <> TYPE_MISMATCH_ERR /\ c <> NOT_FOUND_ERR.
Proof.
  unfold Promises.syscall. destruct r as [[code | cls msg | id] | v]; try discriminate.
  destruct (Promises.dict_get _ code) eqn:E; [discriminate|].
  intros H. injection H as <-. simpl in E.
  destruct (Nat.eqb_spec NOT_FOUND_ERR code); [discriminate|].
  destruct (Nat.eqb_spec TYPE_MISMATCH_ERR code); [discriminate|].
  split; congruence.
Qed.

(** X15. The walk of [getDirectoryHandle] never rejects with a raw
    [DOMException] of code [TYPE_MISMATCH_ERR] or [NOT_FOUND_ERR]: when a
    directory on the way is missing it rejects with an [ENOENT] error whose
    message reads 'EEXIST: no such file or directory', and when an entry on
    the way is not a directory with 'ENOTDIR: not a directory', both
    followed by the caller's operation and the whole path, not the
    segment that failed. *)
Theorem getDirectoryHandle_translates
    (type path : string) (parts : list string) (create : bool) (root : handle) (st : store) :
  (forall c,
     fst (Promises.getDirectoryHandle_loop store handle TYPE_MISMATCH_ERR NOT_FOUND_ERR
            handle_getDirectoryHandle type path parts create root st) =
       inl (Promises.DOMException c) ->
     c <> TYPE_MISMATCH_ERR /\ c <> NOT_FOUND_ERR) /\
  (forall part rest st',
     handle_getDirectoryHandle root (Some part) create st =
       (inl (Promises.DOMException NOT_FOUND_ERR), st') ->
     Promises.getDirectoryHandle_loop store handle TYPE_MISMATCH_ERR NOT_FOUND_ERR
       handle_getDirectoryHandle type path (part :: rest) create root st =
     (inl (Promises.SystemError Promises.ENOENT
             ("EEXIST: no such file or directory, " ++ type ++ " '" ++ path ++ "'")%string),
      st')) /\
  (forall part rest st',
     TYPE_MISMATCH_ERR <> NOT_FOUND_ERR ->
     handle_getDirectoryHandle root (Some part) create st =
       (inl (Promises.DOMException TYPE_MISMATCH_ERR), st') ->
     Promises.getDirectoryHandle_loop store handle TYPE_MISMATCH_ERR NOT_FOUND_ERR
       handle_getDirectoryHandle type path (part :: rest) create root st =
     (inl (Promises.SystemError Promises.ENOTDIR
             ("ENOTDIR: not a directory, " ++ type ++ " '" ++ path ++ "'")%string),
      st')).
Proof.
  split; [|split].
  - revert root st. induction parts as [|part rest IH]; intros root st c; simpl.
    + discriminate.
    + destruct (handle_getDirectoryHandle root (Some part) create st) as [r st'].
      destruct (Promises.syscall type path r _) as [e | root'] eqn:E.
      * simpl. intros H. injection H as ->. now apply syscall_DOMException in E.
      * apply IH.
  - intros part rest st' H. simpl. rewrite H.
    unfold Promises.syscall. now rewrite dict_get_not_found.
  - intros part rest st' Hne H. simpl. rewrite H.
    unfold Promises.syscall. now rewrite dict_get_type_mismatch.
Qed.

(** X16. [rm] with [force] forgives a missing directory on the way to the entry
    (the [ENOENT] of the walk) and nothing else: when the walk succeeds
    and [removeEntry] rejects, [rm] rejects with the same exception whether
    [force] is set or not, because that call is not translated. *)
Theorem rm_force_forgives_the_walk_only
    (path : string) (force recursive : bool) (st : store) :
  (forall msg,
     fst (Promises.rm store handle TYPE_MISMATCH_ERR NOT_FOUND_ERR storage_getDirectory
            handle_getDirectoryHandle handle_removeEntry path true recursive st) <>
     inl (Promises.SystemError Promises.ENOENT msg)) /\
  (forall msg st',
     Promises.getParent store handle TYPE_MISMATCH_ERR NOT_FOUND_ERR storage_getDirectory
       handle_getDirectoryHandle "rm" path false st =
       (inl (Promises.SystemError Promises.ENOENT msg), st') ->
     Promises.rm store handle TYPE_MISMATCH_ERR NOT_FOUND_ERR storage_getDirectory
       handle_getDirectoryHandle handle_removeEntry path force recursive st =
     (if force then inr tt else inl (Promises.SystemError Promises.ENOENT msg), st')) /\
  (forall root filename st1 c st2,
     Promises.getParent store handle TYPE_MISMATCH_ERR NOT_FOUND_ERR storage_getDirectory
       handle_getDirectoryHandle "rm" path false st = (inr (root, filename), st1) ->
     handle_removeEntry root filename recursive st1 = (inl (Promises.DOMException c), st2) ->
     Promises.rm store handle TYPE_MISMATCH_ERR NOT_FOUND_ERR storage_getDirectory
       handle_getDirectoryHandle handle_removeEntry path force recursive st =
     (inl (Promises.DOMException c), st2)).
Proof.
  split; [|split].
  - intros msg. unfold Promises.rm.
    destruct (Promises.getParent _ _ _ _ _ _ _ _ _ _) as [[e | [root filename]] st0].
    + cbn [andb]. destruct (Promises.instanceof_ENOENT e) eqn:E; simpl; [discriminate|].
      intros H. injection H as ->. discriminate.
    + destruct (handle_removeEntry root filename recursive st0) as [[e | v] st1].
      * cbn [andb]. destruct (Promises.instanceof_ENOENT e) eqn:E; simpl; [discriminate|].
        intros H. injection H as ->. discriminate.
      * simpl. discriminate.
  - intros msg st' H. unfold Promises.rm. rewrite H. simpl.
    now destruct force.
  - intros root filename st1 c st2 H1 H2. unfold Promises.rm. rewrite H1, H2. simpl.
    now rewrite andb_false_r.
Qed.

End PlatformProperties.

Lemma getDirectoryHandle_translates_witness :
  Promises.getDirectoryHandle_loop unit nat 17 8 empty_getDirectoryHandle
    "readdir" "/a/b" ["a"; "b"] false 0 tt =
  (inl (Promises.SystemError Promises.ENOENT "EEXIST: no such file or directory, readdir '/a/b'"),
   tt).
Proof.
  apply (proj1 (proj2 (getDirectoryHandle_translates unit nat 17 8 empty_getDirectoryHandle
                         "readdir" "/a/b" ["a"; "b"] false 0 tt))).
  reflexivity.
Defined.

Lemma rm_force_forgives_the_walk_only_witness :
  Promises.rm unit nat 17 8 empty_getDirectory empty_getDirectoryHandle empty_removeEntry
    "/a/b" true false tt = (inr tt, tt) /\
  Promises.rm unit nat 17 8 empty_getDirectory empty_getDirectoryHandle empty_removeEntry
    "/b" true false tt = (inl (Promises.DOMException 8), tt).
Proof.
  split.
  - apply (proj1 (proj2 (rm_force_forgives_the_walk_only unit nat 17 8 empty_getDirectory
                           empty_getDirectoryHandle empty_removeEntry "/a/b" true false tt))
             "EEXIST: no such file or directory, rm '/a/b'").
    reflexivity.
  - apply (proj2 (proj2 (rm_force_forgives_the_walk_only unit nat 17 8 empty_getDirectory
                           empty_getDirectoryHandle empty_removeEntry "/b" true false tt))
             0 (Some "b") tt 8 tt); reflexivity.
Defined.

(** X19. [FileHandle.write] of a [Uint8Array] without [offset] and [length]
    writes the whole buffer; with an offset inside the buffer and a
    non-negative length it writes the [length] bytes from [offset], cut at
    the end of the buffer; and it never writes more bytes than the buffer
    has. *)
Theorem write_chunk_bounds {A : Type} (data : list A) :
  Promises.write_chunk data None None = data /\
  (forall o l, (0 <= o <= Z.of_nat (List.length data))%Z -> (0 <= l)%Z ->
     Promises.write_chunk data (Some o) (Some l) =
     firstn (Z.to_nat l) (skipn (Z.to_nat o) data)) /\
  (forall o, (0 <= o <= Z.of_nat (List.length data))%Z ->
     Promises.write_chunk data (Some o) None = skipn (Z.to_nat o) data) /\
  (forall offset length,
     List.length (Promises.write_chunk data offset length) <= List.length data).
Proof.
  assert (Hsl : forall o e, (0 <= o <= Z.of_nat (List.length data))%Z -> (o <= e)%Z ->
            aslice data o e = firstn (Z.to_nat (e - o)) (skipn (Z.to_nat o) data)).
  { intros o e Ho He. unfold aslice, clamp.
    destruct (Z.ltb_spec o 0); [lia|]. destruct (Z.ltb_spec e 0); [lia|].
    rewrite (Z.min_l o) by lia.
    destruct (Z.le_gt_cases e (Z.of_nat (List.length data))).
    - now rewrite Z.min_l by lia.
    - rewrite Z.min_r by lia.
      rewrite !firstn_all2; try reflexivity; rewrite length_skipn; lia. }
  split; [|split; [|split]].
  - unfold Promises.write_chunk. rewrite Hsl by lia. simpl skipn.
    apply firstn_all2. lia.
  - intros o l Ho Hl. unfold Promises.write_chunk. rewrite Hsl by lia.
    f_equal. lia.
  - intros o Ho. unfold Promises.write_chunk. rewrite Hsl by lia.
    apply firstn_all2. rewrite length_skipn. lia.
  - intros offset length. unfold Promises.write_chunk, aslice.
    rewrite length_firstn, length_skipn. lia.
Qed.

Lemma write_chunk_bounds_witness :
  Promises.write_chunk [1; 2; 3; 4; 5] (Some 1%Z) (Some 9%Z) = [2; 3; 4; 5].
Proof.
  rewrite (proj1 (proj2 (write_chunk_bounds [1; 2; 3; 4; 5])) 1%Z 9%Z); [reflexivity | | ];
    simpl; lia.
Defined.
